(** * Defendr: the Nest client ([src/security/Auth.js], [src/Nest.js])

    A shallow embedding of the two classes of the repository:

    - [Auth], the credential store with its two token exchanges;
    - [Nest], which extends [Auth] with the resource fetches and the two
      polling pipelines built from rxjs operators.

    JavaScript values, exceptions and promises are modelled in [Js]; the
    state of the single [Nest] instance, the requests it has sent and the
    lines it has logged are threaded through a small state-and-exception
    monad.  What lies outside the two files ([./constants], [process.env],
    [JSON.parse], the network) is gathered in one [environment] record that
    every definition takes as a parameter. *)

From Stdlib Require Import String List ZArith Bool Lia.
Import ListNotations.
Open Scope string_scope.
Open Scope list_scope.

(* ====================================================================== *)
(** * JavaScript values, errors, completions *)
(* ====================================================================== *)

Module Js.

(** The primitive values that the two classes store in their fields and
    put in their requests: [undefined], [null], booleans and strings.
    Numbers (IEEE doubles) are not part of this universe; array lengths
    and indices are integers. *)
Inductive value : Type :=
| VUndefined
| VNull
| VBool (b : bool)
| VStr (s : string).

(** ToBoolean, as used by [if (x)] and [!x]. *)
Definition truthy (v : value) : bool :=
  match v with
  | VUndefined | VNull => false
  | VBool b => b
  | VStr s => negb (String.eqb s "")
  end.

(** ToString, as used by a template literal [`${x}`]. *)
Definition to_string (v : value) : string :=
  match v with
  | VUndefined => "undefined"
  | VNull => "null"
  | VBool true => "true"
  | VBool false => "false"
  | VStr s => s
  end.

(** A plain object: its own properties, in insertion order. *)
Definition object : Type := list (string * value).

(** Property read [o.k]: [undefined] when [o] has no such property. *)
Fixpoint get (o : object) (k : string) : value :=
  match o with
  | [] => VUndefined
  | (k', v) :: rest => if String.eqb k k' then v else get rest k
  end.

Definition keys (o : object) : list string := map fst o.

Inductive error_kind : Type :=
| Error            (* [new Error(msg)] *)
| TypeError
| ReferenceError
| SyntaxError      (* thrown by [JSON.parse] *)
| RequestError.    (* rejection of [request]: transport error or non-2xx status *)

Record error : Type := mk_error { kind : error_kind; message : string }.

(** Result of evaluating an expression or a block: a value, or a throw. *)
Inductive completion (A : Type) : Type :=
| Return (a : A)
| Throw (e : error).
Arguments Return {A} a.
Arguments Throw {A} e.

(** A settled promise. *)
Inductive promise (A : Type) : Type :=
| Fulfilled (a : A)
| Rejected (e : error).
Arguments Fulfilled {A} a.
Arguments Rejected {A} e.

End Js.
Export Js.

(* ====================================================================== *)
(** * Requests, the environment and the world *)
(* ====================================================================== *)

(** The body of an outgoing request.  [JsonText o] stands for a JSON text:
    it is kept symbolic, as the members the text has, in order. *)
Inductive body : Type :=
| NoBody
| Form (fields : object)        (* the [form:] option: url-encoded fields *)
| JsonText (o : object).        (* the [body:] option: a JSON text *)

(** [JSON.stringify(o)] for a plain object: the text has one member for each
    property of [o], except that a property whose value is [undefined] is
    left out. *)
Definition JSON_stringify (o : object) : body :=
  JsonText
    (filter (fun member =>
               match snd member with
               | VUndefined => false
               | _ => true
               end) o).

(** The [options] object handed to [request]. *)
Record request : Type := mk_request {
  method : string;
  url : string;
  headers : list (string * value);
  payload : body
}.

(** What [request(options)] settles to: either it rejects (transport error,
    or a non-2xx status, which request-promise turns into a rejection), or
    it resolves with the response text. *)
Inductive reply : Type :=
| Failed (e : error)
| Body (text : string).

(** An event record as parsed from JSON; the classes never look inside. *)
Definition Event : Type := object.

(** Everything the two files take from outside. *)
Record environment : Type := mk_environment {
  (* ./constants: config.urls and config.endpoints *)
  OAUTH_URL : string;
  JWT_TOKEN_URL : string;
  NEXUS_HOST : string;
  EVENTS_ENDPOINT : string;
  LATEST_IMAGE_ENDPOINT : string;
  (* process.env *)
  API_KEY : value;
  CLIENT_ID : value;
  REFRESH_TOKEN : value;
  (* JSON.parse on the reply of a token endpoint: the object it returns (the
     endpoints answer with a JSON object), or the SyntaxError it throws *)
  JSON_parse_object : string -> completion object;
  (* JSON.parse on the reply of the events endpoint: the array it returns
     (the endpoint answers with a JSON array of event records), or the
     SyntaxError it throws.  A reply that parses to something else than an
     array is outside this model: everything stated about the event feed is
     stated for replies that are arrays or fail to parse *)
  JSON_parse_events : string -> completion (list Event);
  (* the remote side: the reply to the n-th request sent (from 0) *)
  network : nat -> reply
}.

(** The fields of [Auth] (set to [null] by its constructor). *)
Record Auth : Type := mk_Auth {
  _accessToken : value;
  _jwtToken : value
}.

(** A line written by [console.log(text, e)]. *)
Record log_line : Type := mk_log { text : string; logged : error }.

(** The mutable state: the instance, the requests sent so far (oldest
    first) and the console (oldest first). *)
Record world : Type := mk_world {
  this : Auth;
  sent : list request;
  console : list log_line
}.

(** [new Auth()] in a fresh process. *)
Definition constructor : world :=
  mk_world (mk_Auth VNull VNull) [] [].

(* ====================================================================== *)
(** * The state-and-exception monad *)
(* ====================================================================== *)

Definition M (A : Type) : Type := world -> completion A * world.

Definition ret {A} (a : A) : M A := fun w => (Return a, w).

Definition throw {A} (e : error) : M A := fun w => (Throw e, w).

Definition bind {A B} (m : M A) (k : A -> M B) : M B :=
  fun w =>
    match m w with
    | (Return a, w') => k a w'
    | (Throw e, w') => (Throw e, w')
    end.

Notation "x <- m ;; k" := (bind m (fun x => k))
  (at level 61, m at next level, right associativity).
Notation "m ;;; k" := (bind m (fun _ => k))
  (at level 61, right associativity).

(** [try { body } catch (e) { handler }]. *)
Definition try_catch {A} (body : M A) (handler : error -> M A) : M A :=
  fun w =>
    match body w with
    | (Return a, w') => (Return a, w')
    | (Throw e, w') => handler e w'
    end.

(** Lift a completion computed without touching the state. *)
Definition lift {A} (c : completion A) : M A := fun w => (c, w).

(** Calling an [async] function, or [new Promise(executor)] around one
    asynchronous chain: the call itself never throws; the promise it returns
    settles to what the body produced.  The body runs to its settlement
    within the call: this is a call that nothing else overlaps.  Calls of
    the two acquisition operations that overlap, each suspended at its
    [await], are modelled by [start], [resume] and [act] below, and
    [acquire_is_start_then_resume] relates the two. *)
Definition async {A} (m : M A) : M (promise A) :=
  fun w =>
    match m w with
    | (Return a, w') => (Return (Fulfilled a), w')
    | (Throw e, w') => (Return (Rejected e), w')
    end.

Definition new_Promise {A} (m : M A) : M (promise A) := async m.

Definition console_log (t : string) (e : error) : M unit :=
  fun w => (Return tt, mk_world (this w) (sent w) (console w ++ [mk_log t e])).

Definition get_accessToken : M value := fun w => (Return (_accessToken (this w)), w).
Definition get_jwtToken : M value := fun w => (Return (_jwtToken (this w)), w).

Definition set_accessToken (v : value) : M unit :=
  fun w => (Return tt, mk_world (mk_Auth v (_jwtToken (this w))) (sent w) (console w)).

Definition set_jwtToken (v : value) : M unit :=
  fun w => (Return tt, mk_world (mk_Auth (_accessToken (this w)) v) (sent w) (console w)).

Section Program.

Variable env : environment.

(** [await request(options)]: the request goes out; a rejection is thrown
    at the [await]. *)
Definition request_ (options : request) : M string :=
  fun w =>
    let w' := mk_world (this w) (sent w ++ [options]) (console w) in
    match network env (length (sent w)) with
    | Body t => (Return t, w')
    | Failed e => (Throw e, w')
    end.

(* ==================================================================== *)
(** ** src/security/Auth.js *)
(* ==================================================================== *)

Definition oauth_options : request :=
  mk_request "POST" (OAUTH_URL env)
    [ ("Content-Type", VStr "application/x-www-form-urlencoded; charset=UTF-8");
      ("Host", VStr "oauth2.googleapis.com") ]
    (Form [ ("refresh_token", REFRESH_TOKEN env);
            ("client_id", CLIENT_ID env);
            ("grant_type", VStr "refresh_token") ]).

(** [async fetchOAuthToken()] *)
Definition fetchOAuthToken : M (promise value) :=
  async (
    cached <- get_accessToken ;;
    if truthy cached then ret cached
    else
      let options := oauth_options in
      try_catch
        (response <- request_ options ;;
         parsed <- lift (JSON_parse_object env response) ;;
         let access_token := get parsed "access_token" in
         set_accessToken access_token ;;;
         ret access_token)
        (fun e =>
           console_log "[ERROR] Failed to retrieve OAuth token from Nest API: " e ;;;
           (* control leaves the catch block and the function ends *)
           ret VUndefined)).

Definition jwt_options (accessToken : value) : request :=
  mk_request "POST" (JWT_TOKEN_URL env)
    [ ("x-goog-api-key", API_KEY env);
      ("Content-Type", VStr "application/json");
      ("Accept", VStr "application/json");
      ("Host", VStr "nestauthproxyservice-pa.googleapis.com");
      ("Authorization", VStr ("Bearer " ++ to_string accessToken)%string) ]
    (JSON_stringify
       [ ("expire_after", VStr "3600s");
         ("policy_id", VStr "authproxy-oauth-policy");
         ("google_oauth_access_token", accessToken);
         ("embed_google_oauth_access_token", VStr "true") ]).

(** [async fetchJwtToken(accessToken)] *)
Definition fetchJwtToken (accessToken : value) : M (promise value) :=
  async (
    cached <- get_jwtToken ;;
    if truthy cached then ret cached
    else
      let options := jwt_options accessToken in
      try_catch
        (response <- request_ options ;;
         parsed <- lift (JSON_parse_object env response) ;;
         let jwt := get parsed "jwt" in
         set_jwtToken jwt ;;;
         ret jwt)
        (fun e =>
           console_log "[ERROR] Failed to retrieve JWT token from Nest API: " e ;;;
           ret VUndefined)).

(* ==================================================================== *)
(** ** src/Nest.js: the resource fetches *)
(* ==================================================================== *)

(** The names a [Nest] instance answers to: its own fields, the members
    of [Nest.prototype], those of [Auth.prototype], and those of
    [Object.prototype]. *)
Definition Nest_members : list string :=
  [ "_latestSnapshotObservable"; "_eventsObservable"; "constructor"; "init";
    "subscribeToLatestSnapshot"; "subscribeToEvents"; "getEvents";
    "getLatestSnapshot"; "getSnapshot" ].

Definition Auth_members : list string :=
  [ "_accessToken"; "_jwtToken"; "constructor"; "accessToken"; "jwtToken";
    "fetchOAuthToken"; "fetchJwtToken" ].

Definition Object_members : list string :=
  [ "constructor"; "hasOwnProperty"; "isPrototypeOf"; "propertyIsEnumerable";
    "toLocaleString"; "toString"; "valueOf";
    "__proto__"; "__defineGetter__"; "__defineSetter__";
    "__lookupGetter__"; "__lookupSetter__" ].

Definition declared (name : string) : bool :=
  existsb (String.eqb name) (Nest_members ++ Auth_members ++ Object_members).

(** [this.refreshTokens()].  No class in the chain declares
    [refreshTokens] ([declared "refreshTokens" = false]): the property read
    gives [undefined], and calling it throws. *)
Definition this_refreshTokens : M value :=
  throw (mk_error TypeError "this.refreshTokens is not a function").

Definition events_options (jwtToken : value) : request :=
  mk_request "GET" (NEXUS_HOST env ++ EVENTS_ENDPOINT env)%string
    [ ("Authorization", VStr ("Basic " ++ to_string jwtToken)%string) ]
    NoBody.

(** [getEvents(start = null, end = null)].  Not an [async] function: the
    guard throws to the caller.  The result is the promise, or [None] for
    the [undefined] the function would return after its catch block. *)
Definition getEvents (start end_ : value) : M (option (promise (list Event))) :=
  guard <- get_jwtToken ;;
  if negb (truthy guard) then
    throw (mk_error Error
      "Access token is null or undefined call: #fetchAccessToken() to retrieve new OAuth token.")
  else
    jwtToken <- get_jwtToken ;;
    let options := events_options jwtToken in
    try_catch
      (p <- new_Promise
              (response <- request_ options ;;
               lift (JSON_parse_events env response)) ;;
       ret (Some p))
      (fun e =>
         console_log
           "[ERROR] Failed to retrieve events from the Nest API Refreshing OAuth & JWT Tokens: " e ;;;
         this_refreshTokens ;;;
         ret None).

Definition snapshot_options (jwtToken : value) : request :=
  mk_request "GET" (NEXUS_HOST env ++ LATEST_IMAGE_ENDPOINT env)%string
    [ ("Authorization", VStr ("Basic " ++ to_string jwtToken)%string) ]
    NoBody.

(** [async getLatestSnapshot()] *)
Definition getLatestSnapshot : M (promise value) :=
  async (
    jwtToken <- get_jwtToken ;;
    let options := snapshot_options jwtToken in
    try_catch
      (response <- request_ options ;;
       ret (VStr response))
      (fun e =>
         console_log
           "[ERROR] Failed to retrieve snapshots from the Nest API Refreshing OAuth & JWT Tokens: " e ;;;
         this_refreshTokens ;;;
         ret VUndefined)).

End Program.

(* ====================================================================== *)
(** * src/Nest.js: the two pipelines of the constructor *)
(* ====================================================================== *)

(** What an observer is called with: [next(v)], [error(e)], [complete()]. *)
Inductive notification (E : Type) : Type :=
| Next (v : E)
| Err (e : error)
| Complete.
Arguments Next {E} v.
Arguments Err {E} e.
Arguments Complete {E}.

(** Reading an identifier: the innermost binding of [x], or a
    ReferenceError when no scope binds it. *)
Fixpoint resolve {A} (x : string) (scope : list (string * A)) : completion A :=
  match scope with
  | [] => Throw (mk_error ReferenceError (x ++ " is not defined")%string)
  | (y, v) :: outer => if String.eqb x y then Return v else resolve x outer
  end.

(** The identifiers bound around the arrow functions of the constructor,
    besides their own parameters: the constructor's parameters and locals,
    and the module's top-level bindings.  (None of them is an array of
    events, and none is called [lastEvents].) *)
Definition enclosing_identifiers : list string :=
  [ "snapshotSubscriptionInterval"; "eventSubscriptionInterval";
    "latestSnapshotSubject"; "eventSubject";
    "request"; "moment"; "config"; "Auth"; "from"; "interval"; "Subject";
    "switchMap"; "takeWhile"; "distinctUntilChanged"; "map"; "multicast";
    "refCount"; "Nest";
    "module"; "exports"; "require"; "__filename"; "__dirname" ].

(** Array read [a[i]]: [None] is [undefined], the result for every index
    that is not one of [0 .. a.length - 1]. *)
Definition array_get {A} (a : list A) (i : Z) : option A :=
  if (i <? 0)%Z then None else nth_error a (Z.to_nat i).

(** The predicate of [takeWhile]: [(events) => events.length >= 0]. *)
Definition takeWhile_predicate (events : list Event) : bool :=
  (Z.of_nat (length events) >=? 0)%Z.

(** The comparator of [distinctUntilChanged]:
    [(prevEvents, currEvents) => currEvents.length === lastEvents.length].
    The left operand is evaluated first, then the identifier [lastEvents]
    is read in the scope of the arrow function. *)
Definition comparator (prevEvents currEvents : list Event) : completion bool :=
  let left := length currEvents in
  match resolve "lastEvents"
          [ ("prevEvents", prevEvents); ("currEvents", currEvents) ] with
  | Return lastEvents => Return (Nat.eqb left (length lastEvents))
  | Throw e => Throw e
  end.

(** The projection of [map]: [events => events[events.length - 1]]. *)
Definition map_project (events : list Event) : option Event :=
  array_get events (Z.of_nat (length events) - 1)%Z.

(** The state of [distinctUntilChanged]: whether a value has been let
    through yet, and the last one that was. *)
Record distinct_state : Type := mk_distinct {
  hasKey : bool;
  key : list Event
}.

Definition distinct_fresh : distinct_state := mk_distinct false [].

(** One value travelling through
    [takeWhile(..), distinctUntilChanged(..), map(..)]:
    the new operator state and what comes out at the end, if anything.
    - [takeWhile] completes the stream at the first value that fails its
      predicate;
    - [distinctUntilChanged] lets the first value through without calling the
      comparator; afterwards it calls it on the last value let through and
      the new one, drops the new one when the result is [true], and sends an
      error downstream when the call throws;
    - [map] applies its projection. *)
Definition events_operators (s : distinct_state) (events : list Event)
  : distinct_state * option (notification (option Event)) :=
  if negb (takeWhile_predicate events) then (s, Some Complete)
  else if hasKey s then
    match comparator (key s) events with
    | Throw e => (s, Some (Err e))
    | Return true => (s, None)
    | Return false => (mk_distinct true events, Some (Next (map_project events)))
    end
  else (mk_distinct true events, Some (Next (map_project events))).

(** The snapshot pipeline has no operator between [switchMap] and
    [multicast]. *)
Definition snapshot_operators (s : unit) (snapshot : value)
  : unit * option (notification value) :=
  (s, Some (Next snapshot)).

(** [from(x)]: a promise becomes a stream; [undefined] is refused with a
    TypeError. *)
Definition from {A} (x : option (promise A)) : completion (promise A) :=
  match x with
  | Some p => Return p
  | None =>
      Throw (mk_error TypeError "You provided 'undefined' where a stream was expected.")
  end.

Section Feed.

(** [interval(ms).pipe(switchMap(project), operators.., multicast(subject),
    refCount())], for a payload type [P], a delivered type [E] and an
    operator state [S]. *)
Variables P E S : Type.
Variable project : M (promise P).
Variable operators : S -> P -> S * option (notification E).
Variable fresh : S.

Record feed : Type := mk_feed {
  (* one entry per call of [subscribe], in order: what that observer has
     been called with so far, oldest first *)
  inboxes : list (list (notification E));
  (* the reference count kept by [refCount] *)
  refcount : nat;
  (* the connection to [interval] is open: the timer is running *)
  connected : bool;
  (* the terminal notification the subject has seen, if any *)
  stopped : option (notification E);
  (* the inner promise [switchMap] is subscribed to and that has not been
     delivered yet *)
  inner : option (promise P);
  op_state : S
}.

(** The pipeline as the constructor leaves it: nobody subscribed. *)
Definition idle : feed := mk_feed [] 0 false None None fresh.

(** [observable.subscribe(observer)].  On a stopped subject the observer
    is handed the terminal notification at once and nothing is connected.
    Otherwise the count goes up, and the first subscriber opens the
    connection to the timer. *)
Definition subscribe (f : feed) : feed :=
  match stopped f with
  | Some t =>
      mk_feed (inboxes f ++ [[t]]) (refcount f) (connected f) (stopped f)
              (inner f) (op_state f)
  | None =>
      mk_feed (inboxes f ++ [[]]) (Datatypes.S (refcount f)) true None
              (if connected f then inner f else None)
              (if connected f then op_state f else fresh)
  end.

(** [subject.next(v)]: every observer is called with [v]. *)
Definition deliver (n : notification E) (f : feed) : feed :=
  mk_feed (map (fun inbox => inbox ++ [n]) (inboxes f)) (refcount f)
          (connected f) (stopped f) (inner f) (op_state f).

(** [subject.error(e)] or [subject.complete()]: every observer is called,
    each of them unsubscribes, the count falls to zero and the last one
    closes the connection to the timer. *)
Definition terminate (t : notification E) (f : feed) : feed :=
  mk_feed (map (fun inbox => inbox ++ [t]) (inboxes f)) 0 false (Some t)
          None (op_state f).

Definition emit (o : option (notification E)) (f : feed) : feed :=
  match o with
  | None => f
  | Some (Next v) => deliver (Next v) f
  | Some t => terminate t f
  end.

(** The timer fires: [switchMap] drops the inner promise it had and calls
    [project] once; a throw of [project] is sent downstream as an error. *)
Definition tick (fw : feed * world) : feed * world :=
  let (f, w) := fw in
  if connected f then
    match project w with
    | (Return p, w') =>
        (mk_feed (inboxes f) (refcount f) (connected f) (stopped f)
                 (Some p) (op_state f), w')
    | (Throw e, w') => (terminate (Err e) f, w')
    end
  else (f, w).

(** The inner promise settles while [switchMap] is still subscribed to
    it: a value goes through the operators, a rejection goes downstream
    as an error. *)
Definition settle (fw : feed * world) : feed * world :=
  let (f, w) := fw in
  match inner f with
  | None => (f, w)
  | Some (Fulfilled v) =>
      let (s', out) := operators (op_state f) v in
      (emit out (mk_feed (inboxes f) (refcount f) (connected f) (stopped f)
                         None s'), w)
  | Some (Rejected e) => (terminate (Err e) f, w)
  end.

Inductive event : Type :=
| Subscribe    (* [observable.subscribe(..)], as called by subscribeToEvents
                  and subscribeToLatestSnapshot; the [INFO] line that
                  subscribeToEvents writes to the console before it is not
                  part of the pipeline and is not recorded *)
| Tick         (* the interval fires *)
| Settle.      (* the promise of the last tick settles before the next tick *)

Definition step (ev : event) (fw : feed * world) : feed * world :=
  match ev with
  | Subscribe => (subscribe (fst fw), snd fw)
  | Tick => tick fw
  | Settle => settle fw
  end.

Definition run (evs : list event) (fw : feed * world) : feed * world :=
  fold_left (fun acc ev => step ev acc) evs fw.

(** The states the pipeline can be in. *)
Inductive reachable : feed * world -> Prop :=
| reachable_idle : forall w, reachable (idle, w)
| reachable_step : forall ev fw, reachable fw -> reachable (step ev fw).

(** What ties the fields together in every state the pipeline reaches:
    while the subject is live, every subscriber is counted and the timer
    runs exactly when the count is positive; once it has stopped, nobody is
    counted, the timer is off and no promise is awaited. *)
Definition consistent (f : feed) : Prop :=
  match stopped f with
  | None =>
      refcount f = length (inboxes f) /\ connected f = Nat.ltb 0 (refcount f)
  | Some _ =>
      refcount f = 0 /\ connected f = false /\ inner f = None
  end.

(** Multicast with a reference count, for two subscribers: in a reachable
    state with a live subject and exactly two subscribers [a] and [b],
    - the timer is running and both are counted;
    - a tick leaves the world as one call of [project] does (one fetch, not
      one per subscriber);
    - whatever a tick or the settling of its promise hands to one of the two,
      it hands to the other;
    - after any further step the timer is running exactly when the count is
      not zero. *)
Definition shared_by_two : Prop :=
  forall (f : feed) (w : world) (a b : list (notification E)),
    reachable (f, w) ->
    stopped f = None ->
    inboxes f = [a; b] ->
    connected f = true
    /\ refcount f = 2
    /\ snd (tick (f, w)) = snd (project w)
    /\ (exists ns, inboxes (fst (tick (f, w))) = [a ++ ns; b ++ ns])
    /\ (exists ns, inboxes (fst (settle (f, w))) = [a ++ ns; b ++ ns])
    /\ (forall ev,
          connected (fst (step ev (f, w))) =
            Nat.ltb 0 (refcount (fst (step ev (f, w))))).

End Feed.

Arguments mk_feed {P E S}.
Arguments inboxes {P E S}.
Arguments refcount {P E S}.
Arguments connected {P E S}.
Arguments stopped {P E S}.
Arguments inner {P E S}.
Arguments op_state {P E S}.
Arguments idle {P E S}.
Arguments subscribe {P E S}.
Arguments deliver {P E S}.
Arguments terminate {P E S}.
Arguments emit {P E S}.
Arguments tick {P E S}.
Arguments settle {P E S}.
Arguments step {P E S}.
Arguments run {P E S}.
Arguments reachable {P E S}.
Arguments consistent {P E S}.
Arguments shared_by_two {P E S}.

Section Pipelines.

Variable env : environment.

(** [switchMap(() => from(this.getEvents()))] *)
Definition events_project : M (promise (list Event)) :=
  r <- getEvents env VNull VNull ;;
  lift (from r).

(** [switchMap(() => from(this.getLatestSnapshot()))] *)
Definition snapshot_project : M (promise value) :=
  r <- getLatestSnapshot env ;;
  lift (from (Some r)).

Definition events_step := step events_project events_operators distinct_fresh.
Definition events_run := run events_project events_operators distinct_fresh.
Definition events_idle : feed (list Event) (option Event) distinct_state :=
  idle distinct_fresh.

Definition snapshot_step := step snapshot_project snapshot_operators tt.
Definition snapshot_run := run snapshot_project snapshot_operators tt.
Definition snapshot_idle : feed value value unit := idle tt.

End Pipelines.

(* ====================================================================== *)
(** * Failing exchanges, and a sample environment *)
(* ====================================================================== *)

(** The error with which the next token exchange fails, if it does: the
    request is rejected, or the text of the reply is not JSON. *)
Definition exchange_failure (env : environment) (w : world) : option error :=
  match network env (length (sent w)) with
  | Failed e => Some e
  | Body t =>
      match JSON_parse_object env t with
      | Throw e => Some e
      | Return _ => None
      end
  end.

(** The error with which the next fetch of the events fails, if it does. *)
Definition events_failure (env : environment) (w : world) : option error :=
  match network env (length (sent w)) with
  | Failed e => Some e
  | Body t =>
      match JSON_parse_events env t with
      | Throw e => Some e
      | Return _ => None
      end
  end.

(** The events the next fetch parses, if it succeeds. *)
Definition events_fetched (env : environment) (n : nat) : option (list Event) :=
  match network env n with
  | Failed _ => None
  | Body t =>
      match JSON_parse_events env t with
      | Throw _ => None
      | Return events => Some events
      end
  end.

Module Sample.

Definition e1 : Event := [("id", VStr "1")].
Definition e2 : Event := [("id", VStr "2")].
Definition e3 : Event := [("id", VStr "3")].

Definition unexpected : error := mk_error SyntaxError "Unexpected token < in JSON at position 0".
Definition connection_reset : error := mk_error RequestError "ECONNRESET".

Definition parse_object (t : string) : completion object :=
  if String.eqb t "tokens" then
    Return [("access_token", VStr "ya29"); ("jwt", VStr "g.0.ey")]
  else if String.eqb t "blank" then
    Return [("access_token", VStr ""); ("jwt", VStr "")]
  else Throw unexpected.

Definition parse_events (t : string) : completion (list Event) :=
  if String.eqb t "two" then Return [e1; e2]
  else if String.eqb t "three" then Return [e1; e2; e3]
  else if String.eqb t "other two" then Return [e2; e3]
  else if String.eqb t "none" then Return []
  else Throw unexpected.

(** An environment in which the replies are given as a list; the
    requests after the last one of the list are rejected. *)
Definition env (replies : list reply) : environment :=
  mk_environment
    "https://oauth2.googleapis.com/token"
    "https://nestauthproxyservice-pa.googleapis.com/v1/issue_jwt"
    "https://nexusapi.example"
    "/cuepoint/camera/2"
    "/get_image?uuid=camera"
    (VStr "api-key") (VStr "client-id") (VStr "refresh-token")
    parse_object parse_events
    (fun n => nth n replies (Failed connection_reset)).

(** An instance holding both tokens. *)
Definition authenticated : world :=
  mk_world (mk_Auth (VStr "ya29") (VStr "g.0.ey")) [] [].

End Sample.

(* ====================================================================== *)
(** * src/Nest.js: [init] and [getSnapshot] *)
(* ====================================================================== *)

(** The bindings of the module [Nest.js]: its [require]d names, the class,
    and the names Node's module wrapper provides.  [fs] and [path] are
    required by [Auth.js] only, so they are not among them. *)
Definition Nest_module_scope : list (string * unit) :=
  map (fun x => (x, tt))
    [ "request"; "moment"; "config"; "Auth"; "from"; "interval"; "Subject";
      "switchMap"; "takeWhile"; "distinctUntilChanged"; "map"; "multicast";
      "refCount"; "Nest";
      "module"; "exports"; "require"; "__filename"; "__dirname" ].

(** [return this]. *)
Definition get_this : M Auth := fun w => (Return (this w), w).

(** [async init()]: [this.refreshTokens(); return this;] *)
Definition init : M (promise Auth) :=
  async (this_refreshTokens ;;; get_this).

(** [request(options)] without [await]: the request is created and goes
    out; nothing waits for its reply. *)
Definition request_start (options : request) : M unit :=
  fun w => (Return tt, mk_world (this w) (sent w ++ [options]) (console w)).

Section GetSnapshot.

Variable env : environment.

(** [config.endpoints.SNAPSHOT_ENDPOINT] *)
Variable SNAPSHOT_ENDPOINT : string.

(** What [.pipe(fs.createWriteStream(path.join(..))).on('close', ..)] does
    once [fs] has been read: it is left open, the fetch is stated for every
    such continuation. *)
Variable pipe_to_file : M unit.

Definition snapshot_by_id_options (id jwtToken : value) : request :=
  mk_request "GET"
    (NEXUS_HOST env ++ SNAPSHOT_ENDPOINT ++ to_string id
       ++ "?crop_type=timeline&width=300")%string
    [ ("Authorization", VStr ("Basic " ++ to_string jwtToken)%string) ]
    NoBody.

(** [async getSnapshot(id)].  In the statement
    [request(options).pipe(fs.createWriteStream(..))] the callee
    [request(options).pipe] is evaluated first, which creates the request;
    then the argument is evaluated, which starts by reading the identifier
    [fs] in the scope of the method. *)
Definition getSnapshot (id : value) : M (promise value) :=
  async (
    guard <- get_jwtToken ;;
    if negb (truthy guard) then
      throw (mk_error Error
        "JWT token is null or undefined. Call #fetchJwtToken() to retrieve new json web token.")
    else
      jwtToken <- get_jwtToken ;;
      let options := snapshot_by_id_options id jwtToken in
      try_catch
        (request_start options ;;;
         lift (resolve "fs" (("id", tt) :: Nest_module_scope)) ;;;
         pipe_to_file ;;;
         ret VUndefined)
        (fun e =>
           console_log "[ERROR] Failed to retrieve snapshots from the Nest API: " e ;;;
           ret VUndefined)).

End GetSnapshot.

(* ====================================================================== *)
(** * Reading what a subscriber has received *)
(* ====================================================================== *)

(** The values an observer's [next] was called with, in order. *)
Definition values {E} (inbox : list (notification E)) : list E :=
  flat_map (fun n => match n with Next v => [v] | _ => [] end) inbox.

(** [error] and [complete] end a subscription. *)
Definition is_terminal {E} (n : notification E) : bool :=
  match n with
  | Next _ => false
  | Err _ | Complete => true
  end.

Definition is_complete {E} (n : notification E) : bool :=
  match n with
  | Complete => true
  | _ => false
  end.

(** Nothing follows a terminal notification. *)
Fixpoint closed_after_terminal {E} (inbox : list (notification E)) : bool :=
  match inbox with
  | [] => true
  | n :: rest =>
      if is_terminal n then
        match rest with [] => true | _ :: _ => false end
      else closed_after_terminal rest
  end.

(** [n] ticks, each settling before the next. *)
Fixpoint polls (n : nat) : list event :=
  match n with
  | O => []
  | Datatypes.S n' => Tick :: Settle :: polls n'
  end.

(* ====================================================================== *)
(** * Auth: calls that overlap *)
(* ====================================================================== *)

(** A call of one of the two acquisition operations. *)
Inductive operation : Type :=
| OAuthToken                        (* [fetchOAuthToken()] *)
| JwtToken (accessToken : value).   (* [fetchJwtToken(accessToken)] *)

Definition same_token (o o' : operation) : bool :=
  match o, o' with
  | OAuthToken, OAuthToken => true
  | JwtToken _, JwtToken _ => true
  | _, _ => false
  end.

(** A call suspended at its [await request(options)]: which call it is,
    and the index, among the requests sent, of the request whose reply it
    waits for. *)
Record suspended : Type := mk_suspended {
  operation_of : operation;
  awaited : nat
}.

Section Overlap.

Variable env : environment.

(** A call that nothing overlaps. *)
Definition acquire (o : operation) : M (promise value) :=
  match o with
  | OAuthToken => fetchOAuthToken env
  | JwtToken accessToken => fetchJwtToken env accessToken
  end.

(** The field a call tests and writes. *)
Definition cache_of (o : operation) (w : world) : value :=
  match o with
  | OAuthToken => _accessToken (this w)
  | JwtToken _ => _jwtToken (this w)
  end.

(** What a call does before its [await]: it tests the cache and returns
    the cached token at once ([inl]), or builds its options, sends the
    request and is suspended ([inr]). *)
Definition start (o : operation) (w : world) : (value + suspended) * world :=
  match o with
  | OAuthToken =>
      if truthy (_accessToken (this w)) then (inl (_accessToken (this w)), w)
      else
        let options := oauth_options env in
        (inr (mk_suspended o (length (sent w))),
         mk_world (this w) (sent w ++ [options]) (console w))
  | JwtToken accessToken =>
      if truthy (_jwtToken (this w)) then (inl (_jwtToken (this w)), w)
      else
        let options := jwt_options env accessToken in
        (inr (mk_suspended o (length (sent w))),
         mk_world (this w) (sent w ++ [options]) (console w))
  end.

(** The reply to the [n]-th request arrives: the [await] yields the text, or
    throws the rejection. *)
Definition await_reply (n : nat) : M string :=
  lift (match network env n with
        | Body t => Return t
        | Failed e => Throw e
        end).

(** What a suspended call does once its reply is in: the rest of the [try]
    block, or the [catch] block.  It runs in the world as it is then, which
    other calls may have changed since the call was suspended. *)
Definition resume (c : suspended) (w : world) : promise value * world :=
  let rest :=
    match operation_of c with
    | OAuthToken =>
        async (
          try_catch
            (response <- await_reply (awaited c) ;;
             parsed <- lift (JSON_parse_object env response) ;;
             let access_token := get parsed "access_token" in
             set_accessToken access_token ;;;
             ret access_token)
            (fun e =>
               console_log "[ERROR] Failed to retrieve OAuth token from Nest API: " e ;;;
               ret VUndefined))
    | JwtToken _ =>
        async (
          try_catch
            (response <- await_reply (awaited c) ;;
             parsed <- lift (JSON_parse_object env response) ;;
             let jwt := get parsed "jwt" in
             set_jwtToken jwt ;;;
             ret jwt)
            (fun e =>
               console_log "[ERROR] Failed to retrieve JWT token from Nest API: " e ;;;
               ret VUndefined))
    end in
  match rest w with
  | (Return p, w') => (p, w')
  | (Throw e, w') => (Rejected e, w')
  end.

(** The instance, the calls that are suspended (oldest first), and the
    promises that have settled, with their calls, in the order in which they
    settled. *)
Record session : Type := mk_session {
  now : world;
  in_flight : list suspended;
  settled : list (operation * promise value)
}.

Inductive action : Type :=
| Call (o : operation)   (* the operation is called *)
| Reply (k : nat).       (* the reply for the [k]-th suspended call arrives *)

Definition act (a : action) (s : session) : session :=
  match a with
  | Call o =>
      match start o (now s) with
      | (inl v, w) => mk_session w (in_flight s) (settled s ++ [(o, Fulfilled v)])
      | (inr c, w) => mk_session w (in_flight s ++ [c]) (settled s)
      end
  | Reply k =>
      match nth_error (in_flight s) k with
      | None => s
      | Some c =>
          let (p, w) := resume c (now s) in
          mk_session w (firstn k (in_flight s) ++ skipn (Datatypes.S k) (in_flight s))
            (settled s ++ [(operation_of c, p)])
      end
  end.

Definition acts (l : list action) (s : session) : session :=
  fold_left (fun acc a => act a acc) l s.

(** The calls made by a list of actions, in order. *)
Definition called (l : list action) : list operation :=
  flat_map (fun a => match a with Call o => [o] | Reply _ => [] end) l.

(** Only calls for the token of [o], and replies. *)
Definition for_token (o : operation) (a : action) : bool :=
  match a with
  | Call o' => same_token o o'
  | Reply _ => true
  end.

End Overlap.

(* ====================================================================== *)
(** * Auth: the two acquisition operations *)
(* ====================================================================== *)

Section AuthFacts.

Variable env : environment.

Lemma fetchOAuthToken_cached w :
  truthy (_accessToken (this w)) = true ->
  fetchOAuthToken env w = (Return (Fulfilled (_accessToken (this w))), w).
Proof.
  intros H. unfold fetchOAuthToken, async, bind, get_accessToken.
  rewrite H. reflexivity.
Qed.

Lemma fetchJwtToken_cached accessToken w :
  truthy (_jwtToken (this w)) = true ->
  fetchJwtToken env accessToken w = (Return (Fulfilled (_jwtToken (this w))), w).
Proof.
  intros H. unfold fetchJwtToken, async, bind, get_jwtToken.
  rewrite H. reflexivity.
Qed.

(** A call that returns a truthy token leaves it in the cache. *)
Lemma fetchOAuthToken_caches w tok w1 :
  fetchOAuthToken env w = (Return (Fulfilled tok), w1) ->
  truthy tok = true ->
  _accessToken (this w1) = tok.
Proof.
  unfold fetchOAuthToken, async, bind, get_accessToken, try_catch, request_,
    lift, set_accessToken, console_log, ret.
  destruct (truthy (_accessToken (this w))) eqn:Hc.
  - intros H _. inversion H; subst. reflexivity.
  - destruct (network env (length (sent w))) as [e | t].
    + intros H Ht. inversion H; subst. discriminate Ht.
    + destruct (JSON_parse_object env t) as [o | e].
      * intros H _. inversion H; subst. reflexivity.
      * intros H Ht. inversion H; subst. discriminate Ht.
Qed.

Lemma fetchJwtToken_caches accessToken w tok w1 :
  fetchJwtToken env accessToken w = (Return (Fulfilled tok), w1) ->
  truthy tok = true ->
  _jwtToken (this w1) = tok.
Proof.
  unfold fetchJwtToken, async, bind, get_jwtToken, try_catch, request_,
    lift, set_jwtToken, console_log, ret.
  destruct (truthy (_jwtToken (this w))) eqn:Hc.
  - intros H _. inversion H; subst. reflexivity.
  - destruct (network env (length (sent w))) as [e | t].
    + intros H Ht. inversion H; subst. discriminate Ht.
    + destruct (JSON_parse_object env t) as [o | e].
      * intros H _. inversion H; subst. reflexivity.
      * intros H Ht. inversion H; subst. discriminate Ht.
Qed.

(** What a call does when the cache is empty and the exchange fails. *)
Lemma fetchOAuthToken_failure w e :
  truthy (_accessToken (this w)) = false ->
  exchange_failure env w = Some e ->
  fetchOAuthToken env w =
    (Return (Fulfilled VUndefined),
     mk_world (this w) (sent w ++ [oauth_options env])
       (console w ++
          [mk_log "[ERROR] Failed to retrieve OAuth token from Nest API: " e])).
Proof.
  intros Hc Hf.
  unfold fetchOAuthToken, async, bind, get_accessToken, try_catch, request_,
    lift, set_accessToken, console_log, ret.
  rewrite Hc. unfold exchange_failure in Hf.
  destruct (network env (length (sent w))) as [e' | t].
  - inversion Hf; subst. reflexivity.
  - destruct (JSON_parse_object env t) as [o | e']; [discriminate|].
    inversion Hf; subst. reflexivity.
Qed.

Lemma fetchJwtToken_failure accessToken w e :
  truthy (_jwtToken (this w)) = false ->
  exchange_failure env w = Some e ->
  fetchJwtToken env accessToken w =
    (Return (Fulfilled VUndefined),
     mk_world (this w) (sent w ++ [jwt_options env accessToken])
       (console w ++
          [mk_log "[ERROR] Failed to retrieve JWT token from Nest API: " e])).
Proof.
  intros Hc Hf.
  unfold fetchJwtToken, async, bind, get_jwtToken, try_catch, request_,
    lift, set_jwtToken, console_log, ret.
  rewrite Hc. unfold exchange_failure in Hf.
  destruct (network env (length (sent w))) as [e' | t].
  - inversion Hf; subst. reflexivity.
  - destruct (JSON_parse_object env t) as [o | e']; [discriminate|].
    inversion Hf; subst. reflexivity.
Qed.

(** With an empty cache a call sends the exchange request, whatever the
    reply. *)
Lemma fetchOAuthToken_sends w :
  truthy (_accessToken (this w)) = false ->
  sent (snd (fetchOAuthToken env w)) = sent w ++ [oauth_options env].
Proof.
  intros Hc.
  unfold fetchOAuthToken, async, bind, get_accessToken, try_catch, request_,
    lift, set_accessToken, console_log, ret.
  rewrite Hc.
  destruct (network env (length (sent w))) as [e' | t]; [reflexivity|].
  destruct (JSON_parse_object env t); reflexivity.
Qed.

Lemma fetchJwtToken_sends accessToken w :
  truthy (_jwtToken (this w)) = false ->
  sent (snd (fetchJwtToken env accessToken w)) =
    sent w ++ [jwt_options env accessToken].
Proof.
  intros Hc.
  unfold fetchJwtToken, async, bind, get_jwtToken, try_catch, request_,
    lift, set_jwtToken, console_log, ret.
  rewrite Hc.
  destruct (network env (length (sent w))) as [e' | t]; [reflexivity|].
  destruct (JSON_parse_object env t); reflexivity.
Qed.

End AuthFacts.

Ltac run_call :=
  unfold fetchOAuthToken, fetchJwtToken, async, bind, get_accessToken,
    get_jwtToken, try_catch, request_, lift, set_accessToken, set_jwtToken,
    console_log, ret.

(** A call that nothing overlaps is its first part followed at once by its
    second part. *)
Lemma acquire_is_start_then_resume (env : environment) (o : operation) (w : world) :
  acquire env o w =
    match start env o w with
    | (inl v, w') => (Return (Fulfilled v), w')
    | (inr c, w') => let (p, w'') := resume env c w' in (Return p, w'')
    end.
Proof.
  destruct o as [| a]; unfold acquire, start, resume, await_reply; run_call;
    [ destruct (truthy (_accessToken (this w)))
    | destruct (truthy (_jwtToken (this w))) ];
    try reflexivity; simpl;
    (destruct (network env (length (sent w))) as [e | t]; [reflexivity|]);
    destruct (JSON_parse_object env t); reflexivity.
Qed.

(** A call that returns a truthy token leaves it in the field it tests. *)
Lemma acquire_caches (env : environment) (o : operation) (w w1 : world) (tok : value) :
  acquire env o w = (Return (Fulfilled tok), w1) ->
  truthy tok = true ->
  cache_of o w1 = tok.
Proof.
  destruct o as [| a]; simpl.
  - apply fetchOAuthToken_caches.
  - apply fetchJwtToken_caches.
Qed.

(** With nothing in flight and a truthy token in the cache, calls for that
    token and stray replies change nothing and every call is fulfilled with
    the cached token. *)
Lemma acts_on_a_full_cache (env : environment) (o : operation) (w : world)
    (l : list action) : forall done,
  truthy (cache_of o w) = true ->
  forallb (for_token o) l = true ->
  acts env l (mk_session w [] done) =
    mk_session w []
      (done ++ map (fun o' => (o', Fulfilled (cache_of o w))) (called l)).
Proof.
  induction l as [| a l IH]; intros done Hc Hl.
  - simpl. rewrite app_nil_r. reflexivity.
  - simpl in Hl. apply andb_true_iff in Hl. destruct Hl as [Ha Hl].
    unfold acts in *. cbn [fold_left].
    destruct a as [o' | k].
    + assert (Hstart : start env o' w = (inl (cache_of o w), w)).
      { destruct o as [| x], o' as [| x']; simpl in Ha, Hc |- *;
          try discriminate Ha; rewrite Hc; reflexivity. }
      cbn [act now in_flight settled]. rewrite Hstart.
      rewrite (IH _ Hc Hl). cbn [called flat_map map app].
      rewrite <- app_assoc. reflexivity.
    + cbn [act in_flight]. destruct k; cbn [nth_error]; apply (IH _ Hc Hl).
Qed.




(** C5 (a failing exchange is swallowed).  When the cache is empty and the
    exchange fails, because the request is rejected (transport error or
    non-2xx status) or because the reply is not JSON, the call does not
    throw and its promise is not rejected: it is fulfilled with
    [undefined], after one line has been written to the console with the
    error.  This holds for both acquisition operations. *)
Theorem exchange_failure_is_swallowed (env : environment) (w : world) (e : error) :
  exchange_failure env w = Some e ->
  (truthy (_accessToken (this w)) = false ->
   fetchOAuthToken env w =
     (Return (Fulfilled VUndefined),
      mk_world (this w) (sent w ++ [oauth_options env])
        (console w ++
           [mk_log "[ERROR] Failed to retrieve OAuth token from Nest API: " e])))
  /\
  (forall accessToken,
      truthy (_jwtToken (this w)) = false ->
      fetchJwtToken env accessToken w =
        (Return (Fulfilled VUndefined),
         mk_world (this w) (sent w ++ [jwt_options env accessToken])
           (console w ++
              [mk_log "[ERROR] Failed to retrieve JWT token from Nest API: " e]))).
Proof.
  intros Hf. split.
  - intros Hc. apply fetchOAuthToken_failure; assumption.
  - intros a Hc. apply fetchJwtToken_failure; assumption.
Qed.

Lemma exchange_failure_is_swallowed_witness :
  let E := Sample.env [Body "<html>502 Bad Gateway</html>"] in
  fst (fetchOAuthToken E constructor) = Return (Fulfilled VUndefined)
  /\ console (snd (fetchOAuthToken E constructor)) =
       [mk_log "[ERROR] Failed to retrieve OAuth token from Nest API: "
               Sample.unexpected]
  /\ fst (fetchJwtToken E (VStr "ya29") constructor) = Return (Fulfilled VUndefined)
  /\ console (snd (fetchJwtToken E (VStr "ya29") constructor)) =
       [mk_log "[ERROR] Failed to retrieve JWT token from Nest API: "
               Sample.unexpected].
Proof.
  intros E.
  destruct (exchange_failure_is_swallowed E constructor Sample.unexpected eq_refl)
    as [Ha Hj].
  rewrite (Ha eq_refl), (Hj (VStr "ya29") eq_refl).
  repeat split.
Defined.

(** C8 (a failed exchange is not cached).  When the cache is empty and the
    exchange fails, the token field is left as it was, and the next call
    sends the exchange request again. *)
Theorem failed_exchange_is_retried (env : environment) (w : world) (e : error) :
  exchange_failure env w = Some e ->
  (truthy (_accessToken (this w)) = false ->
   let w1 := snd (fetchOAuthToken env w) in
   _accessToken (this w1) = _accessToken (this w)
   /\ sent (snd (fetchOAuthToken env w1)) = sent w1 ++ [oauth_options env])
  /\
  (forall accessToken again,
      truthy (_jwtToken (this w)) = false ->
      let w1 := snd (fetchJwtToken env accessToken w) in
      _jwtToken (this w1) = _jwtToken (this w)
      /\ sent (snd (fetchJwtToken env again w1)) =
           sent w1 ++ [jwt_options env again]).
Proof.
  intros Hf. split.
  - intros Hc w1. subst w1.
    rewrite (fetchOAuthToken_failure env w e Hc Hf). simpl. split.
    + reflexivity.
    + apply (fetchOAuthToken_sends env
               (mk_world (this w) (sent w ++ [oauth_options env])
                  (console w ++
                     [mk_log "[ERROR] Failed to retrieve OAuth token from Nest API: " e]))).
      exact Hc.
  - intros a again Hc w1. subst w1.
    rewrite (fetchJwtToken_failure env a w e Hc Hf). simpl. split.
    + reflexivity.
    + apply (fetchJwtToken_sends env again
               (mk_world (this w) (sent w ++ [jwt_options env a])
                  (console w ++
                     [mk_log "[ERROR] Failed to retrieve JWT token from Nest API: " e]))).
      exact Hc.
Qed.

Lemma failed_exchange_is_retried_witness :
  let E := Sample.env [Failed Sample.connection_reset; Body "tokens"] in
  let w1 := snd (fetchOAuthToken E constructor) in
  let w2 := snd (fetchJwtToken E VUndefined constructor) in
  (_accessToken (this w1) = VNull
   /\ sent (snd (fetchOAuthToken E w1)) = sent w1 ++ [oauth_options E])
  /\ (_jwtToken (this w2) = VNull
      /\ sent (snd (fetchJwtToken E (VStr "ya29") w2)) =
           sent w2 ++ [jwt_options E (VStr "ya29")]).
Proof.
  intros E w1 w2.
  destruct (failed_exchange_is_retried E constructor Sample.connection_reset eq_refl)
    as [Ha Hj].
  split.
  - exact (Ha eq_refl).
  - exact (Hj VUndefined (VStr "ya29") eq_refl).
Defined.

(** C6, as the spec words it, fails on the last field of the session
    exchange: the body carries the string "true", not the boolean [true]. *)
Lemma session_body_flag_is_a_string :
  let E := Sample.env [] in
  exists r o,
    sent (snd (fetchJwtToken E (VStr "ya29") constructor)) = [r]
    /\ payload r = JsonText o
    /\ get o "embed_google_oauth_access_token" = VStr "true"
    /\ get o "embed_google_oauth_access_token" <> VBool true.
Proof.
  intros E. eexists. eexists.
  split; [reflexivity|]. split; [reflexivity|]. split; [reflexivity|].
  simpl. discriminate.
Qed.

(** C6, amended (the shape of the two exchange requests).  With an empty
    cache, [fetchOAuthToken] sends one POST to the OAuth URL whose form has
    exactly the fields refresh_token, client_id and grant_type, the last
    being "refresh_token"; [fetchJwtToken] sends one POST to the session
    URL with the API key in the x-goog-api-key header, the header
    [Authorization: Bearer <accessToken>], and as body the JSON text of
    expire_after "3600s", policy_id "authproxy-oauth-policy",
    google_oauth_access_token (the access token it was given) and
    embed_google_oauth_access_token, which is the string "true". *)
Theorem exchange_requests (env : environment) (w : world) :
  (truthy (_accessToken (this w)) = false ->
   sent (snd (fetchOAuthToken env w)) =
     sent w ++
     [ mk_request "POST" (OAUTH_URL env)
         [ ("Content-Type", VStr "application/x-www-form-urlencoded; charset=UTF-8");
           ("Host", VStr "oauth2.googleapis.com") ]
         (Form [ ("refresh_token", REFRESH_TOKEN env);
                 ("client_id", CLIENT_ID env);
                 ("grant_type", VStr "refresh_token") ]) ])
  /\
  (forall accessToken,
      truthy (_jwtToken (this w)) = false ->
      sent (snd (fetchJwtToken env (VStr accessToken) w)) =
        sent w ++
        [ mk_request "POST" (JWT_TOKEN_URL env)
            [ ("x-goog-api-key", API_KEY env);
              ("Content-Type", VStr "application/json");
              ("Accept", VStr "application/json");
              ("Host", VStr "nestauthproxyservice-pa.googleapis.com");
              ("Authorization", VStr ("Bearer " ++ accessToken)%string) ]
            (JsonText [ ("expire_after", VStr "3600s");
                        ("policy_id", VStr "authproxy-oauth-policy");
                        ("google_oauth_access_token", VStr accessToken);
                        ("embed_google_oauth_access_token", VStr "true") ]) ]).
Proof.
  split.
  - intros Hc. apply fetchOAuthToken_sends. exact Hc.
  - intros a Hc. apply (fetchJwtToken_sends env (VStr a) w Hc).
Qed.

Lemma exchange_requests_witness :
  let E := Sample.env [Body "tokens"; Body "tokens"] in
  length (sent (snd (fetchOAuthToken E constructor))) = 1
  /\ map method (sent (snd (fetchJwtToken E (VStr "ya29") constructor))) = ["POST"]
  /\ map (fun r => get (headers r) "Authorization")
         (sent (snd (fetchJwtToken E (VStr "ya29") constructor))) =
       [VStr "Bearer ya29"].
Proof.
  intros E.
  destruct (exchange_requests E constructor) as [Ha Hj].
  rewrite (Ha eq_refl), (Hj "ya29" eq_refl).
  repeat split.
Defined.

(* ====================================================================== *)
(** * Nest: the resource fetches *)
(* ====================================================================== *)

(** Neither class, nor [Object.prototype], declares [refreshTokens]. *)
Lemma refreshTokens_undeclared : declared "refreshTokens" = false.
Proof. reflexivity. Qed.

(** [lastEvents] is bound by no scope around the comparator. *)
Lemma lastEvents_unbound :
  existsb (String.eqb "lastEvents") enclosing_identifiers = false.
Proof. reflexivity. Qed.

Section NestFacts.

Variable env : environment.

Lemma getEvents_guard start end_ w :
  truthy (_jwtToken (this w)) = false ->
  getEvents env start end_ w =
    (Throw (mk_error Error
       "Access token is null or undefined call: #fetchAccessToken() to retrieve new OAuth token."),
     w).
Proof.
  intros H. unfold getEvents, bind, get_jwtToken. rewrite H. reflexivity.
Qed.

Lemma getEvents_fulfilled start end_ w events :
  truthy (_jwtToken (this w)) = true ->
  events_fetched env (length (sent w)) = Some events ->
  getEvents env start end_ w =
    (Return (Some (Fulfilled events)),
     mk_world (this w) (sent w ++ [events_options env (_jwtToken (this w))])
       (console w)).
Proof.
  intros H Hf.
  unfold getEvents, bind, get_jwtToken, try_catch, new_Promise, async,
    request_, lift, ret.
  rewrite H. simpl. unfold events_fetched in Hf.
  destruct (network env (length (sent w))) as [e | t]; [discriminate|].
  destruct (JSON_parse_events env t) as [evs | e]; [|discriminate].
  inversion Hf; subst. reflexivity.
Qed.

Lemma getEvents_rejected start end_ w e :
  truthy (_jwtToken (this w)) = true ->
  events_failure env w = Some e ->
  getEvents env start end_ w =
    (Return (Some (Rejected e)),
     mk_world (this w) (sent w ++ [events_options env (_jwtToken (this w))])
       (console w)).
Proof.
  intros H Hf.
  unfold getEvents, bind, get_jwtToken, try_catch, new_Promise, async,
    request_, lift, ret.
  rewrite H. simpl. unfold events_failure in Hf.
  destruct (network env (length (sent w))) as [e' | t].
  - inversion Hf; subst. reflexivity.
  - destruct (JSON_parse_events env t) as [evs | e']; [discriminate|].
    inversion Hf; subst. reflexivity.
Qed.

Lemma getLatestSnapshot_fulfilled w t :
  network env (length (sent w)) = Body t ->
  getLatestSnapshot env w =
    (Return (Fulfilled (VStr t)),
     mk_world (this w) (sent w ++ [snapshot_options env (_jwtToken (this w))])
       (console w)).
Proof.
  intros H.
  unfold getLatestSnapshot, async, bind, get_jwtToken, try_catch, request_, ret.
  rewrite H. reflexivity.
Qed.

Lemma getLatestSnapshot_rejected w e :
  network env (length (sent w)) = Failed e ->
  getLatestSnapshot env w =
    (Return (Rejected (mk_error TypeError "this.refreshTokens is not a function")),
     mk_world (this w) (sent w ++ [snapshot_options env (_jwtToken (this w))])
       (console w ++
          [mk_log
             "[ERROR] Failed to retrieve snapshots from the Nest API Refreshing OAuth & JWT Tokens: "
             e])).
Proof.
  intros H.
  unfold getLatestSnapshot, async, bind, get_jwtToken, try_catch, request_,
    console_log, this_refreshTokens, throw, ret.
  rewrite H. reflexivity.
Qed.

(** Whatever the reply, [getLatestSnapshot] returns a promise and has sent
    exactly one request. *)
Lemma getLatestSnapshot_sends w :
  sent (snd (getLatestSnapshot env w)) =
    sent w ++ [snapshot_options env (_jwtToken (this w))]
  /\ this (snd (getLatestSnapshot env w)) = this w
  /\ exists p, fst (getLatestSnapshot env w) = Return p.
Proof.
  destruct (network env (length (sent w))) as [e | t] eqn:Hn.
  - rewrite (getLatestSnapshot_rejected w e Hn). simpl. eauto.
  - rewrite (getLatestSnapshot_fulfilled w t Hn). simpl. eauto.
Qed.

(** When the guard lets it through, [getEvents] returns a promise and has
    sent exactly one request, whatever the reply. *)
Lemma getEvents_sends start end_ w :
  truthy (_jwtToken (this w)) = true ->
  sent (snd (getEvents env start end_ w)) =
    sent w ++ [events_options env (_jwtToken (this w))].
Proof.
  intros H.
  unfold getEvents, bind, get_jwtToken, try_catch, new_Promise, async,
    request_, lift, ret.
  rewrite H. simpl.
  destruct (network env (length (sent w))) as [e | t]; [reflexivity|].
  destruct (JSON_parse_events env t); reflexivity.
Qed.

End NestFacts.

(** C10 ([getEvents] ignores its window).  For all values of [start] and
    [end], [null] included, [getEvents] does the same thing: the same
    throw or the same promise, and the same world afterwards.  When the
    guard lets the call through, the one request it sends is made of the
    method GET, the events URL and the header [Authorization: Basic <session
    token>], in which neither [start] nor [end] occurs. *)
Theorem getEvents_ignores_window (env : environment)
    (start end_ start' end_' : value) (w : world) :
  getEvents env start end_ w = getEvents env start' end_' w
  /\ (truthy (_jwtToken (this w)) = true ->
      sent (snd (getEvents env start end_ w)) =
        sent w ++
        [ mk_request "GET" (NEXUS_HOST env ++ EVENTS_ENDPOINT env)%string
            [ ("Authorization",
               VStr ("Basic " ++ to_string (_jwtToken (this w)))%string) ]
            NoBody ]).
Proof.
  split.
  - reflexivity.
  - intros H. apply getEvents_sends. exact H.
Qed.

Lemma getEvents_ignores_window_witness :
  let E := Sample.env [Body "two"] in
  getEvents E VNull VNull Sample.authenticated =
    getEvents E (VStr "1577836800") (VStr "1577923200") Sample.authenticated
  /\ map url (sent (snd (getEvents E VNull VNull Sample.authenticated))) =
       ["https://nexusapi.example/cuepoint/camera/2"].
Proof.
  intros E.
  destruct (getEvents_ignores_window E VNull VNull (VStr "1577836800")
              (VStr "1577923200") Sample.authenticated) as [Hsame Hreq].
  split.
  - exact Hsame.
  - rewrite (Hreq eq_refl). reflexivity.
Defined.

(** C2, at its failing input.  On a fresh instance, whose session token is
    [null], [getEvents] throws the missing-credential error to its caller
    and sends nothing; [getLatestSnapshot] has no such guard: it returns a
    promise and has sent a GET with the header
    [Authorization: Basic null]. *)
Theorem getLatestSnapshot_has_no_guard (env : environment) :
  (forall start end_,
      getEvents env start end_ constructor =
        (Throw (mk_error Error
           "Access token is null or undefined call: #fetchAccessToken() to retrieve new OAuth token."),
         constructor))
  /\
  (exists p,
      fst (getLatestSnapshot env constructor) = Return p)
  /\
  sent (snd (getLatestSnapshot env constructor)) =
    [ mk_request "GET" (NEXUS_HOST env ++ LATEST_IMAGE_ENDPOINT env)%string
        [ ("Authorization", VStr "Basic null") ] NoBody ].
Proof.
  split; [|split].
  - intros s e. apply getEvents_guard. reflexivity.
  - apply (getLatestSnapshot_sends env constructor).
  - apply (getLatestSnapshot_sends env constructor).
Qed.

(* ====================================================================== *)
(** * The pipelines: facts that hold for both feeds *)
(* ====================================================================== *)

Section FeedFacts.

Variables P E S : Type.
Variable project : M (promise P).
Variable operators : S -> P -> S * option (notification E).
Variable fresh : S.


Lemma consistent_subscribe (f : (feed P E S)) :
  consistent f -> consistent (subscribe fresh f).
Proof.
  unfold consistent, subscribe.
  destruct (stopped f) eqn:Hs; simpl.
  - intros H. exact H.
  - intros [Hr _]. rewrite length_app. simpl. split; [lia | reflexivity].
Qed.

Lemma consistent_deliver n (f : (feed P E S)) :
  consistent f -> consistent (deliver n f).
Proof.
  unfold consistent, deliver. simpl.
  destruct (stopped f); rewrite ?length_map; intros H; exact H.
Qed.

Lemma consistent_terminate t (f : (feed P E S)) : consistent (terminate t f).
Proof. unfold consistent, terminate. simpl. repeat split. Qed.

Lemma consistent_emit o (f : (feed P E S)) :
  consistent f -> consistent (emit o f).
Proof.
  intros H. destruct o as [[v | e |] |]; simpl;
    auto using consistent_deliver, consistent_terminate.
Qed.

Lemma consistent_step ev (fw : (feed P E S) * world) :
  consistent (fst fw) -> consistent (fst (step project operators fresh ev fw)).
Proof.
  destruct fw as [f w]. intros H. simpl in H.
  destruct ev; simpl.
  - apply consistent_subscribe. exact H.
  - destruct (connected f) eqn:Hc; [|exact H].
    destruct (project w) as [[p | e] w']; simpl.
    + unfold consistent in *. simpl.
      destruct (stopped f); [|rewrite Hc in H; exact H].
      destruct H as (_ & Hcon & _). congruence.
    + apply consistent_terminate.
  - destruct (inner f) as [[v | e] |] eqn:Hi; simpl.
    + destruct (operators (op_state f) v) as [s' out]. simpl.
      apply consistent_emit.
      unfold consistent in *. simpl.
      destruct (stopped f); [|exact H].
      destruct H as (_ & _ & Hin). congruence.
    + apply consistent_terminate.
    + exact H.
Qed.

Lemma reachable_consistent (fw : (feed P E S) * world) :
  reachable project operators fresh fw -> consistent (fst fw).
Proof.
  induction 1 as [w | ev fw _ IH].
  - simpl. unfold consistent. simpl. split; reflexivity.
  - apply consistent_step. exact IH.
Qed.

Lemma reachable_run evs : forall fw : (feed P E S) * world,
  reachable project operators fresh fw -> reachable project operators fresh (run project operators fresh evs fw).
Proof.
  induction evs as [| ev evs IH]; intros fw H; simpl.
  - exact H.
  - apply IH. apply reachable_step. exact H.
Qed.

(** The timer runs exactly while somebody is counted. *)
Lemma timer_follows_refcount (fw : (feed P E S) * world) :
  reachable project operators fresh fw -> connected (fst fw) = Nat.ltb 0 (refcount (fst fw)).
Proof.
  intros H. apply reachable_consistent in H. unfold consistent in H.
  destruct (stopped (fst fw)).
  - destruct H as (Hr & Hc & _). rewrite Hr, Hc. reflexivity.
  - exact (proj2 H).
Qed.

(** A tick calls [project] once, however many subscribers there are. *)
Lemma tick_calls_project_once (f : (feed P E S)) w :
  connected f = true -> snd (tick project (f, w)) = snd (project w).
Proof.
  intros Hc. simpl. rewrite Hc.
  destruct (project w) as [[p | e] w']; reflexivity.
Qed.

(** Whatever a tick hands to one subscriber, it hands to all. *)
Lemma tick_multicasts (f : (feed P E S)) w :
  exists ns,
    inboxes (fst (tick project (f, w))) = map (fun inbox => inbox ++ ns) (inboxes f).
Proof.
  simpl. destruct (connected f).
  - destruct (project w) as [[p | e] w']; simpl.
    + exists []. rewrite <- (map_id (inboxes f)) at 1.
      apply map_ext. intros a. rewrite app_nil_r. reflexivity.
    + exists [Err e]. reflexivity.
  - exists []. simpl. rewrite <- (map_id (inboxes f)) at 1.
    apply map_ext. intros a. rewrite app_nil_r. reflexivity.
Qed.

Lemma settle_multicasts (f : (feed P E S)) w :
  exists ns,
    inboxes (fst (settle operators (f, w))) = map (fun inbox => inbox ++ ns) (inboxes f).
Proof.
  assert (Hnil : inboxes f = map (fun inbox => inbox ++ []) (inboxes f)).
  { rewrite <- (map_id (inboxes f)) at 1.
    apply map_ext. intros a. rewrite app_nil_r. reflexivity. }
  simpl. destruct (inner f) as [[v | e] |]; simpl.
  - destruct (operators (op_state f) v) as [s' [[x | e |] |]]; simpl.
    + exists [Next x]. reflexivity.
    + exists [Err e]. reflexivity.
    + exists [Complete]. reflexivity.
    + exists []. exact Hnil.
  - exists [Err e]. reflexivity.
  - exists []. exact Hnil.
Qed.

Lemma settle_keeps_world (fw : (feed P E S) * world) : snd (settle operators fw) = snd fw.
Proof.
  destruct fw as [f w]. simpl.
  destruct (inner f) as [[v | e] |]; simpl; try reflexivity.
  destruct (operators (op_state f) v); reflexivity.
Qed.

(** Once the subject has stopped, nothing touches the world any more: no
    later tick fetches anything. *)
Lemma stopped_is_quiet evs : forall (f : (feed P E S)) w,
  consistent f -> stopped f <> None ->
  snd (run project operators fresh evs (f, w)) = w /\ stopped (fst (run project operators fresh evs (f, w))) <> None.
Proof.
  induction evs as [| ev evs IH]; intros f w Hk Hs; simpl.
  - split; [reflexivity | exact Hs].
  - assert (Hstep : step project operators fresh ev (f, w) = (fst (step project operators fresh ev (f, w)), w)
                    /\ stopped (fst (step project operators fresh ev (f, w))) <> None).
    { unfold consistent in Hk.
      destruct (stopped f) as [t |] eqn:Hst; [|congruence].
      destruct Hk as (_ & Hc & Hi).
      destruct ev; simpl.
      - unfold subscribe. rewrite Hst. simpl. split; congruence.
      - rewrite Hc. simpl. split; congruence.
      - rewrite Hi. simpl. split; congruence. }
    destruct Hstep as [Heq Hs'].
    pose proof (consistent_step ev (f, w) Hk) as Hk'.
    rewrite Heq. apply IH; assumption.
Qed.

Lemma feed_shared_by_two : shared_by_two project operators fresh.
Proof.
  intros f w a b Hreach Hlive Hab.
  pose proof (reachable_consistent (f, w) Hreach) as Hk.
  unfold consistent in Hk. simpl in Hk. rewrite Hlive, Hab in Hk.
  destruct Hk as [Hr Hc]. simpl in Hr. rewrite Hr in Hc. simpl in Hc.
  split; [exact Hc|]. split; [exact Hr|].
  split; [apply tick_calls_project_once; exact Hc|].
  split; [|split].
  - destruct (tick_multicasts f w) as [ns Hns].
    exists ns. rewrite Hns, Hab. reflexivity.
  - destruct (settle_multicasts f w) as [ns Hns].
    exists ns. rewrite Hns, Hab. reflexivity.
  - intros ev. apply timer_follows_refcount.
    apply reachable_step. exact Hreach.
Qed.

End FeedFacts.

(* ====================================================================== *)
(** * The event feed *)
(* ====================================================================== *)

Lemma takeWhile_never_stops events : takeWhile_predicate events = true.
Proof.
  unfold takeWhile_predicate. rewrite Z.geb_leb. apply Z.leb_le.
  apply Nat2Z.is_nonneg.
Qed.

(** The comparator throws on every pair of arguments. *)
Lemma comparator_throws prevEvents currEvents :
  comparator prevEvents currEvents =
    Throw (mk_error ReferenceError "lastEvents is not defined").
Proof. reflexivity. Qed.

Lemma events_operators_first s events :
  hasKey s = false ->
  events_operators s events =
    (mk_distinct true events, Some (Next (map_project events))).
Proof.
  intros H. unfold events_operators.
  rewrite takeWhile_never_stops, H. reflexivity.
Qed.

Lemma events_operators_later s events :
  hasKey s = true ->
  events_operators s events =
    (s, Some (Err (mk_error ReferenceError "lastEvents is not defined"))).
Proof.
  intros H. unfold events_operators.
  rewrite takeWhile_never_stops, H, comparator_throws. reflexivity.
Qed.

Section EventFeedFacts.

Variable env : environment.

Lemma events_project_world w :
  snd (events_project env w) = snd (getEvents env VNull VNull w).
Proof.
  unfold events_project, bind.
  destruct (getEvents env VNull VNull w) as [[r | e] w']; reflexivity.
Qed.

Lemma events_project_fulfilled w events :
  truthy (_jwtToken (this w)) = true ->
  events_fetched env (length (sent w)) = Some events ->
  events_project env w =
    (Return (Fulfilled events),
     mk_world (this w) (sent w ++ [events_options env (_jwtToken (this w))])
       (console w)).
Proof.
  intros H Hf. unfold events_project, bind.
  rewrite (getEvents_fulfilled env VNull VNull w events H Hf). reflexivity.
Qed.

Lemma events_project_rejected w e :
  truthy (_jwtToken (this w)) = true ->
  events_failure env w = Some e ->
  events_project env w =
    (Return (Rejected e),
     mk_world (this w) (sent w ++ [events_options env (_jwtToken (this w))])
       (console w)).
Proof.
  intros H Hf. unfold events_project, bind.
  rewrite (getEvents_rejected env VNull VNull w e H Hf). reflexivity.
Qed.

Lemma snapshot_project_world w :
  snd (snapshot_project env w) = snd (getLatestSnapshot env w).
Proof.
  unfold snapshot_project, bind.
  destruct (getLatestSnapshot env w) as [[r | e] w']; reflexivity.
Qed.

(** The first value to reach [distinctUntilChanged] is let through and
    projected to its last element. *)
Lemma settle_first f w events :
  inner f = Some (Fulfilled events) ->
  hasKey (op_state f) = false ->
  events_step env Settle (f, w) =
    (deliver (Next (map_project events))
       (mk_feed (inboxes f) (refcount f) (connected f) (stopped f) None
          (mk_distinct true events)), w).
Proof.
  intros Hi Hk. unfold events_step. simpl.
  rewrite Hi, (events_operators_first _ events Hk). reflexivity.
Qed.

(** Every later value makes the comparator throw: the feed ends in an
    error. *)
Lemma settle_later f w events :
  inner f = Some (Fulfilled events) ->
  hasKey (op_state f) = true ->
  events_step env Settle (f, w) =
    (terminate (Err (mk_error ReferenceError "lastEvents is not defined"))
       (mk_feed (inboxes f) (refcount f) (connected f) (stopped f) None
          (op_state f)), w).
Proof.
  intros Hi Hk. unfold events_step. simpl.
  rewrite Hi, (events_operators_later _ events Hk). reflexivity.
Qed.

Lemma tick_fulfilled f w events :
  connected f = true ->
  truthy (_jwtToken (this w)) = true ->
  events_fetched env (length (sent w)) = Some events ->
  events_step env Tick (f, w) =
    (mk_feed (inboxes f) (refcount f) (connected f) (stopped f)
       (Some (Fulfilled events)) (op_state f),
     mk_world (this w) (sent w ++ [events_options env (_jwtToken (this w))])
       (console w)).
Proof.
  intros Hc H Hf. unfold events_step. simpl.
  rewrite Hc, (events_project_fulfilled w events H Hf). reflexivity.
Qed.

End EventFeedFacts.

(** C1, at its failing inputs.  A subscriber is attached, and two
    consecutive ticks fetch the event sequences [first] and [second].  The
    first tick hands the subscriber the last element of [first].  The
    second tick hands it no value at all, whether the two lengths are equal
    or differ: the comparator reads the undeclared identifier [lastEvents],
    and the subscriber receives the ReferenceError, which ends the feed. *)
Theorem second_tick_ends_in_error (env : environment) (w : world)
    (first second : list Event) :
  truthy (_jwtToken (this w)) = true ->
  events_fetched env (length (sent w)) = Some first ->
  events_fetched env (Datatypes.S (length (sent w))) = Some second ->
  inboxes (fst (events_run env [Subscribe; Tick; Settle; Tick; Settle]
                  (events_idle, w))) =
    [ [ Next (map_project first);
        Err (mk_error ReferenceError "lastEvents is not defined") ] ].
Proof.
  intros Htok H1 H2.
  unfold events_run, run. cbn [fold_left].
  change (step (events_project env) events_operators distinct_fresh)
    with (events_step env).
  change (events_step env Subscribe (events_idle, w))
    with (subscribe distinct_fresh events_idle, w).
  rewrite (tick_fulfilled env (subscribe distinct_fresh events_idle) w first
             eq_refl Htok H1).
  erewrite settle_first; [| reflexivity | reflexivity].
  erewrite tick_fulfilled; [| reflexivity | exact Htok | ].
  - erewrite settle_later; reflexivity.
  - cbn [sent]. rewrite length_app, Nat.add_1_r. exact H2.
Qed.

Lemma second_tick_ends_in_error_witness :
  let E := Sample.env [Body "two"; Body "three"] in
  inboxes (fst (events_run E [Subscribe; Tick; Settle; Tick; Settle]
                  (events_idle, Sample.authenticated))) =
    [ [ Next (Some Sample.e2);
        Err (mk_error ReferenceError "lastEvents is not defined") ] ].
Proof.
  intros E.
  exact (second_tick_ends_in_error E Sample.authenticated
           [Sample.e1; Sample.e2] [Sample.e1; Sample.e2; Sample.e3]
           eq_refl eq_refl eq_refl).
Defined.

(** C9 (an empty fetch delivers [undefined]).  On the empty sequence the
    projection reads index [-1], outside the sequence, and yields
    [undefined].  So whenever the operators let an empty sequence through as
    a value, that value is [undefined]; and this does happen: when the empty
    sequence is the first value to reach the distinctness filter, every
    subscriber is handed [undefined]. *)
Theorem empty_fetch_delivers_undefined (env : environment) :
  (Z.of_nat (length (@nil Event)) - 1 = -1)%Z
  /\ map_project [] = array_get (@nil Event) (-1)%Z
  /\ map_project [] = None
  /\ (forall s s' v,
         events_operators s [] = (s', Some (Next v)) -> v = None)
  /\ (forall (f : feed (list Event) (option Event) distinct_state) w,
         inner f = Some (Fulfilled []) ->
         hasKey (op_state f) = false ->
         inboxes (fst (events_step env Settle (f, w))) =
           map (fun inbox => inbox ++ [Next None]) (inboxes f)).
Proof.
  split; [reflexivity|]. split; [reflexivity|]. split; [reflexivity|]. split.
  - intros s s' v H. unfold events_operators in H.
    rewrite takeWhile_never_stops in H. cbn [negb] in H.
    destruct (hasKey s).
    + rewrite comparator_throws in H. discriminate H.
    + inversion H. reflexivity.
  - intros f w Hi Hk. rewrite (settle_first env f w [] Hi Hk). reflexivity.
Qed.

Lemma empty_fetch_delivers_undefined_witness :
  let E := Sample.env [Body "none"] in
  inboxes (fst (events_run E [Subscribe; Subscribe; Tick; Settle]
                  (events_idle, Sample.authenticated))) =
    [ [Next None]; [Next None] ].
Proof.
  intros E.
  destruct (empty_fetch_delivers_undefined E) as (_ & _ & _ & _ & H).
  exact (H (fst (events_run E [Subscribe; Subscribe; Tick]
                   (events_idle, Sample.authenticated)))
           (snd (events_run E [Subscribe; Subscribe; Tick]
                   (events_idle, Sample.authenticated)))
           eq_refl eq_refl).
Defined.

(** C3, at its failing inputs.  A fetch that fails clears no token and
    starts no token exchange.
    - Event feed: the rejection of the request (or the text that is not
      JSON) travels through the promise; the catch block of [getEvents] is
      not entered, nothing is logged, and both token fields are as before.
    - Snapshot feed: the catch block is entered and logs, but
      [this.refreshTokens] is not a function, so the promise is rejected
      with a TypeError and both token fields are as before.
    In both feeds the error ends the stream: the only request sent is the
    GET that failed, and whatever happens later (ticks included) changes
    neither the tokens nor the requests sent. *)
Theorem fetch_failure_resets_nothing (env : environment) (w : world) (e : error) :
  (forall f : feed (list Event) (option Event) distinct_state,
      connected f = true ->
      truthy (_jwtToken (this w)) = true ->
      events_failure env w = Some e ->
      let after := events_run env [Tick; Settle] (f, w) in
      this (snd after) = this w
      /\ sent (snd after) = sent w ++ [events_options env (_jwtToken (this w))]
      /\ console (snd after) = console w
      /\ stopped (fst after) = Some (Err e)
      /\ forall later, snd (events_run env later after) = snd after)
  /\
  (forall f : feed value value unit,
      connected f = true ->
      network env (length (sent w)) = Failed e ->
      let after := snapshot_run env [Tick; Settle] (f, w) in
      this (snd after) = this w
      /\ sent (snd after) = sent w ++ [snapshot_options env (_jwtToken (this w))]
      /\ stopped (fst after) =
           Some (Err (mk_error TypeError "this.refreshTokens is not a function"))
      /\ forall later, snd (snapshot_run env later after) = snd after).
Proof.
  split.
  - intros f Hc Htok Hf after.
    assert (Hafter :
      after =
        (terminate (Err e)
           (mk_feed (inboxes f) (refcount f) (connected f) (stopped f)
              (Some (Rejected e)) (op_state f)),
         mk_world (this w) (sent w ++ [events_options env (_jwtToken (this w))])
           (console w))).
    { subst after. unfold events_run, run. cbn [fold_left]. simpl.
      rewrite Hc, (events_project_rejected env w e Htok Hf). reflexivity. }
    rewrite Hafter. simpl.
    repeat (split; [reflexivity|]).
    intros later. unfold events_run.
    apply (fun H1 H2 =>
             proj1 (stopped_is_quiet _ _ _ (events_project env) events_operators
                      distinct_fresh later _ _ H1 H2)).
    + apply consistent_terminate.
    + simpl. discriminate.
  - intros f Hc Hf after.
    assert (Hafter :
      after =
        (terminate (Err (mk_error TypeError "this.refreshTokens is not a function"))
           (mk_feed (inboxes f) (refcount f) (connected f) (stopped f)
              (Some (Rejected
                 (mk_error TypeError "this.refreshTokens is not a function")))
              (op_state f)),
         mk_world (this w) (sent w ++ [snapshot_options env (_jwtToken (this w))])
           (console w ++
              [mk_log
                 "[ERROR] Failed to retrieve snapshots from the Nest API Refreshing OAuth & JWT Tokens: "
                 e]))).
    { subst after. unfold snapshot_run, run. cbn [fold_left]. simpl.
      rewrite Hc. unfold snapshot_project, bind.
      rewrite (getLatestSnapshot_rejected env w e Hf). reflexivity. }
    rewrite Hafter. simpl.
    repeat (split; [reflexivity|]).
    intros later. unfold snapshot_run.
    apply (fun H1 H2 =>
             proj1 (stopped_is_quiet _ _ _ (snapshot_project env)
                      snapshot_operators tt later _ _ H1 H2)).
    + apply consistent_terminate.
    + simpl. discriminate.
Qed.

Lemma fetch_failure_resets_nothing_witness :
  let E := Sample.env [Failed Sample.connection_reset; Body "tokens"; Body "two"] in
  let w := Sample.authenticated in
  let ev := events_run E [Subscribe; Tick; Settle; Tick; Settle; Tick] (events_idle, w) in
  let sn := snapshot_run E [Subscribe; Tick; Settle; Tick; Settle; Tick] (snapshot_idle, w) in
  (this (snd ev) = mk_Auth (VStr "ya29") (VStr "g.0.ey")
   /\ map method (sent (snd ev)) = ["GET"])
  /\ (this (snd sn) = mk_Auth (VStr "ya29") (VStr "g.0.ey")
      /\ map method (sent (snd sn)) = ["GET"]).
Proof.
  intros E w ev sn.
  destruct (fetch_failure_resets_nothing E w Sample.connection_reset) as [Hev Hsn].
  destruct (Hev (subscribe distinct_fresh events_idle) eq_refl eq_refl eq_refl)
    as (Ht & Hs & _ & _ & Hq).
  destruct (Hsn (subscribe tt snapshot_idle) eq_refl eq_refl)
    as (Ht' & Hs' & _ & Hq').
  split.
  - change ev with
      (events_run E [Tick; Settle; Tick]
         (events_run E [Tick; Settle]
            (subscribe distinct_fresh events_idle, w))).
    rewrite Hq, Ht, Hs. split; reflexivity.
  - change sn with
      (snapshot_run E [Tick; Settle; Tick]
         (snapshot_run E [Tick; Settle] (subscribe tt snapshot_idle, w))).
    rewrite Hq', Ht', Hs'. split; reflexivity.
Defined.

(** One tick of the snapshot feed and the settling of its promise, while
    the timer runs: the reply goes to the subscribers, or the error does. *)
Lemma snapshot_poll_fulfilled (env : environment) (f : feed value value unit)
    (w : world) (t : string) :
  connected f = true ->
  network env (length (sent w)) = Body t ->
  snapshot_run env [Tick; Settle] (f, w) =
    (deliver (Next (VStr t))
       (mk_feed (inboxes f) (refcount f) true (stopped f) None (op_state f)),
     mk_world (this w) (sent w ++ [snapshot_options env (_jwtToken (this w))])
       (console w)).
Proof.
  intros Hc Hn. unfold snapshot_run, run. cbn [fold_left step]. unfold tick.
  rewrite Hc. unfold snapshot_project, bind.
  rewrite (getLatestSnapshot_fulfilled env w t Hn). reflexivity.
Qed.

Lemma snapshot_poll_rejected (env : environment) (f : feed value value unit)
    (w : world) (e : error) :
  connected f = true ->
  network env (length (sent w)) = Failed e ->
  snapshot_run env [Tick; Settle] (f, w) =
    (terminate (Err (mk_error TypeError "this.refreshTokens is not a function")) f,
     mk_world (this w) (sent w ++ [snapshot_options env (_jwtToken (this w))])
       (console w ++
          [mk_log
             "[ERROR] Failed to retrieve snapshots from the Nest API Refreshing OAuth & JWT Tokens: "
             e])).
Proof.
  intros Hc Hn. unfold snapshot_run, run. cbn [fold_left step]. unfold tick.
  rewrite Hc. unfold snapshot_project, bind.
  rewrite (getLatestSnapshot_rejected env w e Hn). reflexivity.
Qed.

(** The same for the event feed, in its four cases. *)
Lemma events_poll_first (env : environment)
    (f : feed (list Event) (option Event) distinct_state) (w : world)
    (events : list Event) :
  connected f = true ->
  truthy (_jwtToken (this w)) = true ->
  events_fetched env (length (sent w)) = Some events ->
  hasKey (op_state f) = false ->
  events_run env [Tick; Settle] (f, w) =
    (deliver (Next (map_project events))
       (mk_feed (inboxes f) (refcount f) true (stopped f) None
          (mk_distinct true events)),
     mk_world (this w) (sent w ++ [events_options env (_jwtToken (this w))])
       (console w)).
Proof.
  intros Hc Htok Hf Hk. unfold events_run, run. cbn [fold_left].
  change (step (events_project env) events_operators distinct_fresh)
    with (events_step env).
  rewrite (tick_fulfilled env f w events Hc Htok Hf).
  erewrite settle_first; [| reflexivity | exact Hk].
  cbn [inboxes refcount connected stopped]. rewrite Hc. reflexivity.
Qed.

Lemma events_poll_later (env : environment)
    (f : feed (list Event) (option Event) distinct_state) (w : world)
    (events : list Event) :
  connected f = true ->
  truthy (_jwtToken (this w)) = true ->
  events_fetched env (length (sent w)) = Some events ->
  hasKey (op_state f) = true ->
  events_run env [Tick; Settle] (f, w) =
    (terminate (Err (mk_error ReferenceError "lastEvents is not defined")) f,
     mk_world (this w) (sent w ++ [events_options env (_jwtToken (this w))])
       (console w)).
Proof.
  intros Hc Htok Hf Hk. unfold events_run, run. cbn [fold_left].
  change (step (events_project env) events_operators distinct_fresh)
    with (events_step env).
  rewrite (tick_fulfilled env f w events Hc Htok Hf).
  erewrite settle_later; [| reflexivity | exact Hk]. reflexivity.
Qed.

Lemma events_poll_rejected (env : environment)
    (f : feed (list Event) (option Event) distinct_state) (w : world)
    (e : error) :
  connected f = true ->
  truthy (_jwtToken (this w)) = true ->
  events_failure env w = Some e ->
  events_run env [Tick; Settle] (f, w) =
    (terminate (Err e) f,
     mk_world (this w) (sent w ++ [events_options env (_jwtToken (this w))])
       (console w)).
Proof.
  intros Hc Htok Hf. unfold events_run, run. cbn [fold_left]. simpl.
  rewrite Hc, (events_project_rejected env w e Htok Hf). reflexivity.
Qed.

Lemma events_poll_guard (env : environment)
    (f : feed (list Event) (option Event) distinct_state) (w : world) :
  connected f = true ->
  truthy (_jwtToken (this w)) = false ->
  events_run env [Tick; Settle] (f, w) =
    (terminate
       (Err (mk_error Error
          "Access token is null or undefined call: #fetchAccessToken() to retrieve new OAuth token."))
       f, w).
Proof.
  intros Hc Htok. unfold events_run, run. cbn [fold_left]. simpl.
  rewrite Hc. unfold events_project, bind.
  rewrite (getEvents_guard env VNull VNull w Htok). reflexivity.
Qed.



(* ====================================================================== *)
(** * Further properties of the acquisition operations *)
(* ====================================================================== *)

Lemma snoc_differs {A} (l : list A) (x : A) : l ++ [x] <> l.
Proof.
  intros H. apply (f_equal (@length A)) in H.
  rewrite length_app in H. simpl in H. lia.
Qed.

Ltac run_exchange :=
  unfold fetchOAuthToken, fetchJwtToken, async, bind, get_accessToken,
    get_jwtToken, try_catch, request_, lift, set_accessToken, set_jwtToken,
    console_log, ret.

(** X1 (the cache is used exactly when it holds a truthy token).  A call
    of [fetchOAuthToken] sends no request if and only if the cached access
    token is truthy; likewise [fetchJwtToken] and the cached session token.
    In particular an empty string that was stored as a token is never served
    from the cache. *)
Theorem cache_hit_iff_truthy (env : environment) (w : world) :
  (sent (snd (fetchOAuthToken env w)) = sent w
     <-> truthy (_accessToken (this w)) = true)
  /\
  (forall accessToken,
      sent (snd (fetchJwtToken env accessToken w)) = sent w
        <-> truthy (_jwtToken (this w)) = true).
Proof.
  split; [|intros a]; split.
  - destruct (truthy (_accessToken (this w))) eqn:Hc; [reflexivity|].
    rewrite (fetchOAuthToken_sends env w Hc). intros H.
    destruct (snoc_differs _ _ H).
  - intros Hc. rewrite (fetchOAuthToken_cached env w Hc). reflexivity.
  - destruct (truthy (_jwtToken (this w))) eqn:Hc; [reflexivity|].
    rewrite (fetchJwtToken_sends env a w Hc). intros H.
    destruct (snoc_differs _ _ H).
  - intros Hc. rewrite (fetchJwtToken_cached env a w Hc). reflexivity.
Qed.

(** X2 (a reply without a usable token is neither an error nor cached).
    When the cache is empty and the exchange request is answered with JSON
    whose token field is missing or falsy ([undefined], [null], the empty
    string), the call is fulfilled with that field, nothing is written to the
    console, and the next call sends the exchange request again.  This holds
    for [access_token] in [fetchOAuthToken] and for [jwt] in
    [fetchJwtToken]. *)
Theorem falsy_field_is_silent_and_retried (env : environment) (w : world)
    (t : string) (o : object) :
  network env (length (sent w)) = Body t ->
  JSON_parse_object env t = Return o ->
  (truthy (_accessToken (this w)) = false ->
   truthy (get o "access_token") = false ->
   let w1 := snd (fetchOAuthToken env w) in
   fst (fetchOAuthToken env w) = Return (Fulfilled (get o "access_token"))
   /\ console w1 = console w
   /\ sent (snd (fetchOAuthToken env w1)) =
        sent w ++ [oauth_options env; oauth_options env])
  /\
  (forall accessToken again,
      truthy (_jwtToken (this w)) = false ->
      truthy (get o "jwt") = false ->
      let w1 := snd (fetchJwtToken env accessToken w) in
      fst (fetchJwtToken env accessToken w) = Return (Fulfilled (get o "jwt"))
      /\ console w1 = console w
      /\ sent (snd (fetchJwtToken env again w1)) =
           sent w ++ [jwt_options env accessToken; jwt_options env again]).
Proof.
  intros Hn Hp. split.
  - intros Hc Hfield w1.
    assert (Hcall : fetchOAuthToken env w =
              (Return (Fulfilled (get o "access_token")),
               mk_world (mk_Auth (get o "access_token") (_jwtToken (this w)))
                 (sent w ++ [oauth_options env]) (console w))).
    { run_exchange. rewrite Hc, Hn, Hp. reflexivity. }
    subst w1. rewrite Hcall. simpl.
    split; [reflexivity|]. split; [reflexivity|].
    rewrite fetchOAuthToken_sends by exact Hfield.
    simpl. rewrite <- app_assoc. reflexivity.
  - intros a again Hc Hfield w1.
    assert (Hcall : fetchJwtToken env a w =
              (Return (Fulfilled (get o "jwt")),
               mk_world (mk_Auth (_accessToken (this w)) (get o "jwt"))
                 (sent w ++ [jwt_options env a]) (console w))).
    { run_exchange. rewrite Hc, Hn, Hp. reflexivity. }
    subst w1. rewrite Hcall. simpl.
    split; [reflexivity|]. split; [reflexivity|].
    rewrite fetchJwtToken_sends by exact Hfield.
    simpl. rewrite <- app_assoc. reflexivity.
Qed.

Lemma falsy_field_is_silent_and_retried_witness :
  let E := Sample.env [Body "blank"; Body "tokens"] in
  let w1 := snd (fetchOAuthToken E constructor) in
  fst (fetchOAuthToken E constructor) = Return (Fulfilled (VStr ""))
  /\ console w1 = []
  /\ length (sent (snd (fetchOAuthToken E w1))) = 2.
Proof.
  intros E w1.
  destruct (falsy_field_is_silent_and_retried E constructor "blank"
              [("access_token", VStr ""); ("jwt", VStr "")] eq_refl eq_refl)
    as [Ha _].
  destruct (Ha eq_refl eq_refl) as (Hr & Hc & Hs).
  split; [exact Hr|]. split; [exact Hc|].
  subst w1. rewrite Hs. reflexivity.
Defined.

(** X3 (a failed first exchange flows into the second).  With both caches
    empty, when the OAuth exchange fails, [fetchOAuthToken] is fulfilled with
    [undefined]; handing that result to [fetchJwtToken] sends the session
    request all the same, with the header [Authorization: Bearer undefined]
    and a JSON body that has no [google_oauth_access_token] member at all
    ([JSON.stringify] leaves out a property that is [undefined]): its
    members are expire_after, policy_id and
    embed_google_oauth_access_token. *)
Theorem failed_access_token_reaches_session_exchange
    (env : environment) (w : world) (e : error) :
  truthy (_accessToken (this w)) = false ->
  truthy (_jwtToken (this w)) = false ->
  exchange_failure env w = Some e ->
  exists accessToken w1,
    fetchOAuthToken env w = (Return (Fulfilled accessToken), w1)
    /\ accessToken = VUndefined
    /\ sent (snd (fetchJwtToken env accessToken w1)) =
         sent w ++
         [ oauth_options env;
           mk_request "POST" (JWT_TOKEN_URL env)
             [ ("x-goog-api-key", API_KEY env);
               ("Content-Type", VStr "application/json");
               ("Accept", VStr "application/json");
               ("Host", VStr "nestauthproxyservice-pa.googleapis.com");
               ("Authorization", VStr "Bearer undefined") ]
             (JsonText [ ("expire_after", VStr "3600s");
                         ("policy_id", VStr "authproxy-oauth-policy");
                         ("embed_google_oauth_access_token", VStr "true") ]) ].
Proof.
  intros Ha Hj Hf.
  eexists. eexists. split; [apply (fetchOAuthToken_failure env w e Ha Hf)|].
  split; [reflexivity|].
  rewrite fetchJwtToken_sends by exact Hj.
  simpl. rewrite <- app_assoc. reflexivity.
Qed.

Lemma failed_access_token_reaches_session_exchange_witness :
  let E := Sample.env [Failed Sample.connection_reset; Body "tokens"] in
  exists accessToken w1,
    fetchOAuthToken E constructor = (Return (Fulfilled accessToken), w1)
    /\ accessToken = VUndefined
    /\ map (fun r => get (headers r) "Authorization")
           (sent (snd (fetchJwtToken E accessToken w1))) =
         [VUndefined; VStr "Bearer undefined"]
    /\ map (fun r => match payload r with
                     | JsonText o => keys o
                     | Form o => keys o
                     | NoBody => []
                     end)
           (sent (snd (fetchJwtToken E accessToken w1))) =
         [ ["refresh_token"; "client_id"; "grant_type"];
           ["expire_after"; "policy_id"; "embed_google_oauth_access_token"] ].
Proof.
  intros E.
  destruct (failed_access_token_reaches_session_exchange E constructor
              Sample.connection_reset eq_refl eq_refl eq_refl)
    as (a & w1 & Hcall & Ha & Hs).
  exists a, w1. split; [exact Hcall|]. split; [exact Ha|].
  rewrite Hs. split; reflexivity.
Defined.

(** X4 (each operation writes only its own token).  [fetchOAuthToken]
    never changes the session token and [fetchJwtToken] never changes the
    access token; [getEvents], [getLatestSnapshot], [getSnapshot] and [init]
    change neither, whatever the replies are. *)
Theorem token_fields_frame (env : environment) (w : world) :
  _jwtToken (this (snd (fetchOAuthToken env w))) = _jwtToken (this w)
  /\ (forall accessToken,
         _accessToken (this (snd (fetchJwtToken env accessToken w))) =
           _accessToken (this w))
  /\ (forall start end_, this (snd (getEvents env start end_ w)) = this w)
  /\ this (snd (getLatestSnapshot env w)) = this w
  /\ (forall endpoint pipe_to_file id,
         this (snd (getSnapshot env endpoint pipe_to_file id w)) = this w)
  /\ this (snd (init w)) = this w.
Proof.
  split; [|split; [|split; [|split; [|split]]]].
  - run_exchange.
    destruct (truthy (_accessToken (this w))); [reflexivity|].
    destruct (network env (length (sent w))) as [e | t]; [reflexivity|].
    destruct (JSON_parse_object env t); reflexivity.
  - intros a. run_exchange.
    destruct (truthy (_jwtToken (this w))); [reflexivity|].
    destruct (network env (length (sent w))) as [e | t]; [reflexivity|].
    destruct (JSON_parse_object env t); reflexivity.
  - intros s e.
    unfold getEvents, bind, get_jwtToken, try_catch, new_Promise, async,
      request_, lift, ret, throw.
    destruct (truthy (_jwtToken (this w))); [|reflexivity]. simpl.
    destruct (network env (length (sent w))) as [e' | t]; [reflexivity|].
    destruct (JSON_parse_events env t); reflexivity.
  - apply (getLatestSnapshot_sends env w).
  - intros ep pipe id.
    unfold getSnapshot, async, bind, get_jwtToken, try_catch, request_start,
      lift, console_log, ret, throw.
    destruct (truthy (_jwtToken (this w))); reflexivity.
  - reflexivity.
Qed.

(* ====================================================================== *)
(** * Further properties of the resource fetches *)
(* ====================================================================== *)

(** [fs] is bound neither by the method's parameter nor by the module. *)
Lemma fs_unbound :
  resolve "fs" (("id", tt) :: Nest_module_scope) =
    Throw (mk_error ReferenceError "fs is not defined").
Proof. reflexivity. Qed.

(** X5 (the catch block of [getEvents] is never entered).  Whatever the
    session token and whatever the reply, [getEvents] writes nothing to the
    console and never returns [undefined]: without a session token it throws
    its guard error, with one it returns a promise, and a failed fetch is
    only visible as the rejection of that promise. *)
Theorem getEvents_never_logs (env : environment) (start end_ : value) (w : world) :
  console (snd (getEvents env start end_ w)) = console w
  /\ (truthy (_jwtToken (this w)) = false ->
      exists e, fst (getEvents env start end_ w) = Throw e)
  /\ (truthy (_jwtToken (this w)) = true ->
      exists p, fst (getEvents env start end_ w) = Return (Some p))
  /\ (truthy (_jwtToken (this w)) = true ->
      forall e, events_failure env w = Some e ->
      fst (getEvents env start end_ w) = Return (Some (Rejected e))).
Proof.
  unfold getEvents, bind, get_jwtToken, try_catch, new_Promise, async,
    request_, lift, ret, throw, events_failure.
  destruct (truthy (_jwtToken (this w))); simpl.
  - destruct (network env (length (sent w))) as [e | t]; simpl.
    + repeat split; try discriminate; eauto.
      intros _ e' He. inversion He. reflexivity.
    + destruct (JSON_parse_events env t); simpl;
        repeat split; try discriminate; eauto.
      intros _ e' He. inversion He. reflexivity.
  - repeat split; try discriminate; eauto.
Qed.

Lemma getEvents_never_logs_witness :
  let E := Sample.env [Body "<html>"] in
  console (snd (getEvents E VNull VNull Sample.authenticated)) = []
  /\ fst (getEvents E VNull VNull Sample.authenticated) =
       Return (Some (Rejected Sample.unexpected)).
Proof.
  intros E.
  destruct (getEvents_never_logs E VNull VNull Sample.authenticated)
    as (Hc & _ & _ & Hr).
  split; [exact Hc | exact (Hr eq_refl Sample.unexpected eq_refl)].
Defined.



(** X7 ([getSnapshot] never reaches the file).  Without a session token
    [getSnapshot] does not throw to its caller: it returns a rejected promise
    and sends nothing.  With one, it creates one GET for
    [<NEXUS_HOST><SNAPSHOT_ENDPOINT><id>?crop_type=timeline&width=300] with
    the header [Authorization: Basic <token>], then fails to read [fs], which
    [Nest.js] does not require: the ReferenceError is caught and logged, and
    the promise is fulfilled with [undefined].  So the outcome does not
    depend on what piping to the file would do. *)
Theorem getSnapshot_never_writes (env : environment) (endpoint : string)
    (id : value) (w : world) :
  (forall pipe_to_file,
      truthy (_jwtToken (this w)) = false ->
      getSnapshot env endpoint pipe_to_file id w =
        (Return (Rejected (mk_error Error
           "JWT token is null or undefined. Call #fetchJwtToken() to retrieve new json web token.")),
         w))
  /\
  (forall pipe_to_file,
      truthy (_jwtToken (this w)) = true ->
      getSnapshot env endpoint pipe_to_file id w =
        (Return (Fulfilled VUndefined),
         mk_world (this w)
           (sent w ++
            [ mk_request "GET"
                (NEXUS_HOST env ++ endpoint ++ to_string id
                   ++ "?crop_type=timeline&width=300")%string
                [ ("Authorization",
                   VStr ("Basic " ++ to_string (_jwtToken (this w)))%string) ]
                NoBody ])
           (console w ++
            [ mk_log "[ERROR] Failed to retrieve snapshots from the Nest API: "
                (mk_error ReferenceError "fs is not defined") ])))
  /\
  (forall pipe_to_file pipe_to_file',
      getSnapshot env endpoint pipe_to_file id w =
        getSnapshot env endpoint pipe_to_file' id w).
Proof.
  assert (Hno : forall pipe,
             truthy (_jwtToken (this w)) = false ->
             getSnapshot env endpoint pipe id w =
               (Return (Rejected (mk_error Error
                  "JWT token is null or undefined. Call #fetchJwtToken() to retrieve new json web token.")),
                w)).
  { intros pipe H. unfold getSnapshot, async, bind, get_jwtToken, throw.
    rewrite H. reflexivity. }
  assert (Hyes : forall pipe,
             truthy (_jwtToken (this w)) = true ->
             getSnapshot env endpoint pipe id w =
               (Return (Fulfilled VUndefined),
                mk_world (this w)
                  (sent w ++ [snapshot_by_id_options env endpoint id (_jwtToken (this w))])
                  (console w ++
                   [ mk_log "[ERROR] Failed to retrieve snapshots from the Nest API: "
                       (mk_error ReferenceError "fs is not defined") ]))).
  { intros pipe H.
    unfold getSnapshot, async, bind, get_jwtToken, try_catch, request_start,
      lift, console_log, ret, throw.
    rewrite H, fs_unbound. reflexivity. }
  split; [exact Hno|]. split; [exact Hyes|].
  intros p p'.
  destruct (truthy (_jwtToken (this w))).
  - rewrite (Hyes p eq_refl), (Hyes p' eq_refl). reflexivity.
  - rewrite (Hno p eq_refl), (Hno p' eq_refl). reflexivity.
Qed.

Lemma getSnapshot_never_writes_witness :
  let E := Sample.env [] in
  let overwrite : M unit :=
    fun w => (Return tt, mk_world (mk_Auth VNull VNull) [] []) in
  fst (getSnapshot E "/get_snapshot/" overwrite (VStr "42") constructor) =
    Return (Rejected (mk_error Error
      "JWT token is null or undefined. Call #fetchJwtToken() to retrieve new json web token."))
  /\ map url (sent (snd (getSnapshot E "/get_snapshot/" overwrite (VStr "42")
                           Sample.authenticated))) =
       ["https://nexusapi.example/get_snapshot/42?crop_type=timeline&width=300"]
  /\ map logged (console (snd (getSnapshot E "/get_snapshot/" overwrite
                                  (VStr "42") Sample.authenticated))) =
       [mk_error ReferenceError "fs is not defined"].
Proof.
  intros E overwrite.
  destruct (getSnapshot_never_writes E "/get_snapshot/" (VStr "42") constructor)
    as (Hno & _ & _).
  destruct (getSnapshot_never_writes E "/get_snapshot/" (VStr "42")
              Sample.authenticated) as (_ & Hyes & _).
  rewrite (Hno overwrite eq_refl), (Hyes overwrite eq_refl).
  repeat split.
Defined.

(* ====================================================================== *)
(** * Further properties of the pipelines *)
(* ====================================================================== *)

Lemma values_app {E} (a b : list (notification E)) :
  values (a ++ b) = values a ++ values b.
Proof. unfold values. apply flat_map_app. Qed.

Lemma live_then_closed {E} (pre : list (notification E)) :
  forallb (fun n => negb (is_terminal n)) pre = true ->
  closed_after_terminal pre = true
  /\ forall t, closed_after_terminal (pre ++ [t]) = true.
Proof.
  induction pre as [| n pre IH]; simpl; intros H.
  - split; [reflexivity|]. intros t. destruct (is_terminal t); reflexivity.
  - apply andb_true_iff in H. destruct H as [Hn Hpre].
    apply negb_true_iff in Hn. rewrite Hn. exact (IH Hpre).
Qed.

Section InboxFacts.

Variables P E S : Type.
Variable project : M (promise P).
Variable operators : S -> P -> S * option (notification E).
Variable fresh : S.

(** While the subject is live no subscriber has seen a terminal
    notification; once it has stopped on [t], every subscriber has seen [t]
    last and only once. *)
Lemma reachable_inboxes (fw : feed P E S * world) :
  reachable project operators fresh fw ->
  match stopped (fst fw) with
  | None =>
      Forall (fun i => forallb (fun n => negb (is_terminal n)) i = true)
             (inboxes (fst fw))
  | Some t =>
      is_terminal t = true
      /\ Forall (fun i => exists pre,
                     i = pre ++ [t]
                     /\ forallb (fun n => negb (is_terminal n)) pre = true)
                (inboxes (fst fw))
  end.
Proof.
  assert (Hterm : forall t (f : feed P E S),
             stopped f = None ->
             Forall (fun i => forallb (fun n => negb (is_terminal n)) i = true)
                    (inboxes f) ->
             is_terminal t = true ->
             is_terminal t = true
             /\ Forall (fun i => exists pre,
                            i = pre ++ [t]
                            /\ forallb (fun n => negb (is_terminal n)) pre = true)
                       (map (fun inbox => inbox ++ [t]) (inboxes f))).
  { intros t f _ Hall Ht. split; [exact Ht|].
    apply Forall_map. eapply Forall_impl; [|exact Hall].
    intros i Hi. exists i. split; [reflexivity | exact Hi]. }
  induction 1 as [w | ev [f w] Hreach IH].
  - simpl. constructor.
  - pose proof (reachable_consistent _ _ _ _ _ _ _ Hreach) as Hk.
    unfold consistent in Hk. simpl in Hk, IH.
    destruct ev; simpl.
    + unfold subscribe.
      destruct (stopped f) as [t |] eqn:Hs; simpl; rewrite ?Hs.
      * destruct IH as [Ht Hall]. split; [exact Ht|].
        apply Forall_app. split; [exact Hall|].
        constructor; [|constructor]. exists []. split; reflexivity.
      * apply Forall_app. split; [exact IH|].
        constructor; [reflexivity | constructor].
    + destruct (connected f) eqn:Hc; [|exact IH].
      destruct (stopped f) as [t |] eqn:Hs.
      { destruct Hk as (_ & Hc' & _). congruence. }
      destruct (project w) as [[p | e] w']; simpl; rewrite ?Hs.
      * exact IH.
      * apply (Hterm (Err e) f Hs IH eq_refl).
    + destruct (inner f) as [[v | e] |] eqn:Hi; simpl.
      * destruct (stopped f) as [t |] eqn:Hs.
        { destruct Hk as (_ & _ & Hi'). congruence. }
        destruct (operators (op_state f) v) as [s' [[x | e |] |]]; simpl;
          rewrite ?Hs.
        -- apply Forall_map. eapply Forall_impl; [|exact IH].
           intros i Hlive. rewrite forallb_app, Hlive. reflexivity.
        -- apply (Hterm (Err e)); [exact Hs | exact IH | reflexivity].
        -- apply (Hterm Complete); [exact Hs | exact IH | reflexivity].
        -- exact IH.
      * destruct (stopped f) as [t |] eqn:Hs.
        { destruct Hk as (_ & _ & Hi'). congruence. }
        apply (Hterm (Err e)); [exact Hs | exact IH | reflexivity].
      * exact IH.
Qed.

(** A feed whose operators never emit [complete] never completes. *)
Lemma reachable_never_complete (fw : feed P E S * world) :
  (forall s v s', operators s v <> (s', Some Complete)) ->
  reachable project operators fresh fw ->
  (forall t, stopped (fst fw) = Some t -> is_complete t = false)
  /\ Forall (fun i => forallb (fun n => negb (is_complete n)) i = true)
            (inboxes (fst fw)).
Proof.
  intros Hop.
  assert (Hend : forall e (f : feed P E S),
             Forall (fun i => forallb (fun n => negb (is_complete n)) i = true)
                    (inboxes f) ->
             (forall t, Some (Err e) = Some t -> @is_complete E t = false)
             /\ Forall (fun i => forallb (fun n => negb (is_complete n)) i = true)
                       (map (fun inbox => inbox ++ [Err e]) (inboxes f))).
  { intros e f Hall. split.
    - intros t Ht. inversion Ht. reflexivity.
    - apply Forall_map. eapply Forall_impl; [|exact Hall].
      intros i Hi. rewrite forallb_app, Hi. reflexivity. }
  induction 1 as [w | ev [f w] Hreach [IHs IHi]].
  - simpl. split; [discriminate | constructor].
  - simpl in IHs, IHi. destruct ev; simpl.
    + unfold subscribe. destruct (stopped f) as [t |] eqn:Hs; simpl.
      * split; [exact IHs|].
        apply Forall_app. split; [exact IHi|].
        constructor; [|constructor]. simpl. rewrite (IHs t eq_refl). reflexivity.
      * split; [discriminate|].
        apply Forall_app. split; [exact IHi|].
        constructor; [reflexivity | constructor].
    + destruct (connected f); [|split; assumption].
      destruct (project w) as [[p | e] w']; simpl.
      * split; assumption.
      * apply Hend. exact IHi.
    + destruct (inner f) as [[v | e] |]; simpl.
      * destruct (operators (op_state f) v) as [s' [[x | e |] |]] eqn:Hout;
          simpl.
        -- split; [exact IHs|].
           apply Forall_map. eapply Forall_impl; [|exact IHi].
           intros i Hi. rewrite forallb_app, Hi. reflexivity.
        -- apply (Hend e (mk_feed (inboxes f) (refcount f) (connected f)
                            (stopped f) None s')). exact IHi.
        -- destruct (Hop _ _ _ Hout).
        -- split; assumption.
      * apply Hend. exact IHi.
      * split; assumption.
Qed.

End InboxFacts.

Lemma events_operators_never_complete s v s' :
  events_operators s v <> (s', Some Complete).
Proof.
  unfold events_operators. rewrite takeWhile_never_stops. cbn [negb].
  destruct (hasKey s).
  - rewrite comparator_throws. discriminate.
  - discriminate.
Qed.

(** X8 (no completion on array replies).  The snapshot feed never calls a
    subscriber's [complete]: its pipeline has no operator that completes.
    In the event feed the only operator that can complete is [takeWhile],
    and its predicate [events.length >= 0] holds for every array; so as long
    as each reply of the events endpoint is a JSON array or fails to parse
    (the replies [JSON_parse_events] represents), no subscriber's [complete]
    is called either.  A reply that parses to something that is not an
    array, an object for instance, is outside this statement. *)
Theorem feeds_do_not_complete_on_array_replies
    (env : environment) (evs : list event) (w : world) :
  (forall events : list Event, takeWhile_predicate events = true)
  /\ Forall (fun inbox => forallb (fun n => negb (is_complete n)) inbox = true)
            (inboxes (fst (snapshot_run env evs (snapshot_idle, w))))
  /\ Forall (fun inbox => forallb (fun n => negb (is_complete n)) inbox = true)
            (inboxes (fst (events_run env evs (events_idle, w)))).
Proof.
  split; [exact takeWhile_never_stops|]. split.
  - apply (reachable_never_complete _ _ _ (snapshot_project env)
             snapshot_operators tt).
    + intros s v s'. unfold snapshot_operators. discriminate.
    + apply reachable_run. apply reachable_idle.
  - apply (reachable_never_complete _ _ _ (events_project env) events_operators
             distinct_fresh).
    + intros s v s'. apply events_operators_never_complete.
    + apply reachable_run. apply reachable_idle.
Qed.

(** X9 (a subscription ends once).  In both feeds, whatever the order of
    subscriptions, ticks and settlements, no subscriber is called again after
    its [error] (or [complete]) callback: in everything a subscriber has
    received, a terminal notification can only be the last entry. *)
Theorem subscriptions_end_once (env : environment) (evs : list event) (w : world) :
  Forall (fun inbox => closed_after_terminal inbox = true)
         (inboxes (fst (events_run env evs (events_idle, w))))
  /\ Forall (fun inbox => closed_after_terminal inbox = true)
            (inboxes (fst (snapshot_run env evs (snapshot_idle, w)))).
Proof.
  assert (Hgen : forall P E S project operators fresh (fw : feed P E S * world),
             reachable project operators fresh fw ->
             Forall (fun inbox => closed_after_terminal inbox = true)
                    (inboxes (fst fw))).
  { intros P E S project operators fresh fw Hreach.
    pose proof (reachable_inboxes _ _ _ _ _ _ fw Hreach) as H.
    destruct (stopped (fst fw)) as [t |].
    - destruct H as [_ H]. eapply Forall_impl; [|exact H].
      intros i (pre & Hi & Hlive). subst i.
      apply (live_then_closed pre Hlive).
    - eapply Forall_impl; [|exact H].
      intros i Hlive. apply (live_then_closed i Hlive). }
  split;
    [ apply (Hgen _ _ _ (events_project env) events_operators distinct_fresh)
    | apply (Hgen _ _ _ (snapshot_project env) snapshot_operators tt) ];
    apply reachable_run; apply reachable_idle.
Qed.

(** What the event feed has delivered, in every state it reaches: nothing
    before the distinctness filter has seen a value, and never more than one
    value per subscriber. *)
Lemma event_feed_values (env : environment)
    (fw : feed (list Event) (option Event) distinct_state * world) :
  reachable (events_project env) events_operators distinct_fresh fw ->
  (hasKey (op_state (fst fw)) = false ->
   Forall (fun i => values i = []) (inboxes (fst fw)))
  /\ Forall (fun i => length (values i) <= 1) (inboxes (fst fw)).
Proof.
  assert (Hmap : forall t (l : list (list (notification (option Event)))),
             is_terminal t = true ->
             map (fun i => values i) (map (fun i => i ++ [t]) l) =
               map (fun i => values i) l).
  { intros t l Ht. rewrite map_map. apply map_ext. intros i.
    rewrite values_app. destruct t; [discriminate | |]; apply app_nil_r. }
  assert (Hend : forall t (f : feed (list Event) (option Event) distinct_state),
             is_terminal t = true ->
             ((hasKey (op_state f) = false ->
               Forall (fun i => values i = []) (inboxes f))
              /\ Forall (fun i => length (values i) <= 1) (inboxes f)) ->
             (hasKey (op_state f) = false ->
              Forall (fun i => values i = [])
                     (map (fun i => i ++ [t]) (inboxes f)))
             /\ Forall (fun i => length (values i) <= 1)
                       (map (fun i => i ++ [t]) (inboxes f))).
  { intros t f Ht [H0 H1]. split.
    - intros Hk. specialize (H0 Hk).
      apply Forall_map. eapply Forall_impl; [|exact H0].
      intros i Hi. rewrite values_app, Hi.
      destruct t; [discriminate | |]; reflexivity.
    - apply Forall_map. eapply Forall_impl; [|exact H1].
      intros i Hi. rewrite values_app.
      destruct t; [discriminate | |]; simpl; rewrite app_nil_r; exact Hi. }
  induction 1 as [w | ev [f w] Hreach IH].
  - simpl. split; [intros _|]; constructor.
  - pose proof (reachable_consistent _ _ _ _ _ _ _ Hreach) as Hk.
    pose proof (reachable_inboxes _ _ _ _ _ _ _ Hreach) as Hin.
    unfold consistent in Hk. simpl in Hk, Hin, IH.
    destruct IH as [IH0 IH1].
    destruct ev; simpl.
    + unfold subscribe. destruct (stopped f) as [t |] eqn:Hs; simpl.
      * destruct Hin as [Ht _].
        assert (Hv : values [t] = []).
        { destruct t; [discriminate | |]; reflexivity. }
        split.
        -- intros Hkey. apply Forall_app. split; [exact (IH0 Hkey)|].
           constructor; [exact Hv | constructor].
        -- apply Forall_app. split; [exact IH1|].
           constructor; [rewrite Hv; simpl; lia | constructor].
      * destruct (connected f) eqn:Hc.
        -- split.
           ++ intros Hkey. apply Forall_app. split; [exact (IH0 Hkey)|].
              constructor; [reflexivity | constructor].
           ++ apply Forall_app. split; [exact IH1|].
              constructor; [simpl; lia | constructor].
        -- destruct Hk as [Hr Hcon].
           destruct (refcount f) eqn:Hrc; [|discriminate Hcon].
           destruct (inboxes f); [|discriminate Hr].
           simpl. split; [intros _|];
             (constructor; [first [reflexivity | simpl; lia] | constructor]).
    + destruct (connected f); [|split; assumption].
      destruct (events_project env w) as [[p | e] w']; simpl.
      * split; assumption.
      * apply (Hend (Err e) f eq_refl). split; assumption.
    + destruct (inner f) as [[v | e] |]; simpl.
      * destruct (hasKey (op_state f)) eqn:Hkey.
        -- rewrite (events_operators_later _ v Hkey). simpl.
           apply (Hend (Err (mk_error ReferenceError "lastEvents is not defined"))
                    (mk_feed (inboxes f) (refcount f) (connected f) (stopped f)
                       None (op_state f)) eq_refl).
           simpl. split; [rewrite Hkey; discriminate | exact IH1].
        -- rewrite (events_operators_first _ v Hkey). simpl.
           split; [discriminate|].
           apply Forall_map. eapply Forall_impl; [|exact (IH0 eq_refl)].
           intros i Hi. rewrite values_app, Hi. simpl. lia.
      * apply (Hend (Err e) f eq_refl). split; assumption.
      * split; assumption.
Qed.

(** X10 (the event feed delivers at most one value).  Whatever the order of
    subscriptions, ticks and settlements and whatever is fetched, no
    subscriber of the event feed ever receives more than one value: the
    first value to pass the distinctness filter is delivered, and the next
    one ends the feed with the comparator's error. *)
Theorem event_feed_delivers_at_most_one_value
    (env : environment) (evs : list event) (w : world) :
  Forall (fun inbox => length (values inbox) <= 1)
         (inboxes (fst (events_run env evs (events_idle, w)))).
Proof.
  apply (event_feed_values env). apply reachable_run. apply reachable_idle.
Qed.

(** X11 (a superseded fetch is dropped).  When the timer fires again before
    the promise of the previous tick has settled, [switchMap] forgets that
    promise: the pipeline goes on exactly as if the first tick had only made
    its call of the fetch operation (the request it sent stays sent) and its
    result had never existed.  For the event feed this needs a session token,
    so that the first call does not throw. *)
Theorem superseded_fetch_is_dropped (env : environment) (w : world) :
  (forall f : feed value value unit,
      connected f = true ->
      snapshot_run env [Tick; Tick; Settle] (f, w) =
        snapshot_run env [Tick; Settle] (f, snd (getLatestSnapshot env w)))
  /\
  (forall f : feed (list Event) (option Event) distinct_state,
      connected f = true ->
      truthy (_jwtToken (this w)) = true ->
      events_run env [Tick; Tick; Settle] (f, w) =
        events_run env [Tick; Settle] (f, snd (getEvents env VNull VNull w))).
Proof.
  assert (Hgen : forall P E S (project : M (promise P)) operators (fresh : S)
                   (f : feed P E S) p w1,
             connected f = true ->
             project w = (Return p, w1) ->
             run project operators fresh [Tick; Tick; Settle] (f, w) =
               run project operators fresh [Tick; Settle] (f, w1)).
  { intros P E S project operators fresh f p w1 Hc Hp.
    unfold run. cbn [fold_left step]. f_equal.
    unfold tick at 2. rewrite Hc, Hp.
    unfold tick. cbn [connected]. rewrite Hc.
    destruct (project w1) as [[p2 | e] w2]; reflexivity. }
  split.
  - intros f Hc. unfold snapshot_run.
    destruct (getLatestSnapshot_sends env w) as (_ & _ & p & Hp).
    apply (Hgen _ _ _ (snapshot_project env) snapshot_operators tt f p _ Hc).
    unfold snapshot_project, bind.
    destruct (getLatestSnapshot env w) as [c w']. simpl in Hp. subst c.
    reflexivity.
  - intros f Hc Htok. unfold events_run.
    assert (Hp : exists p,
               getEvents env VNull VNull w =
                 (Return (Some p), snd (getEvents env VNull VNull w))).
    { unfold getEvents, bind, get_jwtToken, try_catch, new_Promise, async,
        request_, lift, ret.
      rewrite Htok. simpl.
      destruct (network env (length (sent w))) as [e | t];
        [eexists; reflexivity|].
      destruct (JSON_parse_events env t); eexists; reflexivity. }
    destruct Hp as [p Hp].
    apply (Hgen _ _ _ (events_project env) events_operators distinct_fresh
             f p _ Hc).
    unfold events_project, bind. rewrite Hp. reflexivity.
Qed.

Lemma superseded_fetch_is_dropped_witness :
  let E := Sample.env [Body "first"; Body "second"] in
  let f := subscribe tt snapshot_idle in
  inboxes (fst (snapshot_run E [Tick; Tick; Settle] (f, Sample.authenticated))) =
    [[Next (VStr "second")]]
  /\ length (sent (snd (snapshot_run E [Tick; Tick; Settle]
                          (f, Sample.authenticated)))) = 2.
Proof.
  intros E f.
  destruct (superseded_fetch_is_dropped E Sample.authenticated) as [Hsn _].
  rewrite (Hsn f eq_refl). split; reflexivity.
Defined.

(** X12 (the snapshot feed keeps polling).  While every fetch succeeds, the
    snapshot feed stays connected and hands each reply to every subscriber:
    after [n] ticks that each settle, every subscriber has received the [n]
    response texts in order, and exactly [n] requests were sent. *)
Theorem snapshot_feed_keeps_polling (env : environment) (bodies : list string) :
  forall (f : feed value value unit) (w : world),
    connected f = true ->
    (forall k, k < length bodies ->
               network env (length (sent w) + k) = Body (nth k bodies "")) ->
    let after := snapshot_run env (polls (length bodies)) (f, w) in
    inboxes (fst after) =
      map (fun inbox => inbox ++ map (fun t => Next (VStr t)) bodies) (inboxes f)
    /\ connected (fst after) = true
    /\ stopped (fst after) = stopped f
    /\ length (sent (snd after)) = length (sent w) + length bodies.
Proof.
  induction bodies as [| b bodies IH]; intros f w Hc Hnet after.
  - subst after. simpl. repeat split.
    + rewrite <- (map_id (inboxes f)) at 1. apply map_ext.
      intros i. rewrite app_nil_r. reflexivity.
    + exact Hc.
    + lia.
  - assert (Hb : network env (length (sent w)) = Body b).
    { specialize (Hnet 0). rewrite Nat.add_0_r in Hnet. apply Hnet. simpl. lia. }
    set (f1 := @deliver value value unit (Next (VStr b))
                 (mk_feed (inboxes f) (refcount f) true (stopped f)
                    None (op_state f))).
    set (w1 := mk_world (this w)
                 (sent w ++ [snapshot_options env (_jwtToken (this w))])
                 (console w)).
    assert (Hstep : snapshot_run env [Tick; Settle] (f, w) = (f1, w1)).
    { unfold snapshot_run, run. cbn [fold_left step]. unfold tick.
      rewrite Hc. unfold snapshot_project, bind.
      rewrite (getLatestSnapshot_fulfilled env w b Hb). reflexivity. }
    assert (Hafter : after = snapshot_run env (polls (length bodies)) (f1, w1)).
    { subst after. unfold snapshot_run in *. unfold run in *.
      cbn [length polls fold_left]. cbn [fold_left] in Hstep.
      rewrite Hstep. reflexivity. }
    destruct (IH f1 w1) as (Hi & Hcon & Hst & Hs).
    + reflexivity.
    + intros k Hk. unfold w1. cbn [sent]. rewrite length_app. simpl.
      replace (length (sent w) + 1 + k) with (length (sent w) + Datatypes.S k)
        by lia.
      apply (Hnet (Datatypes.S k)). simpl. lia.
    + rewrite Hafter. split; [|split; [exact Hcon | split]].
      * rewrite Hi. unfold f1, deliver. cbn [inboxes]. rewrite map_map.
        apply map_ext. intros i. rewrite <- app_assoc. reflexivity.
      * rewrite Hst. reflexivity.
      * rewrite Hs. unfold w1. cbn [sent]. rewrite length_app. simpl. lia.
Qed.

Lemma snapshot_feed_keeps_polling_witness :
  let E := Sample.env [Body "jpeg 1"; Body "jpeg 2"; Body "jpeg 3"] in
  let f := subscribe tt (subscribe tt snapshot_idle) in
  inboxes (fst (snapshot_run E (polls 3) (f, constructor))) =
    [ [Next (VStr "jpeg 1"); Next (VStr "jpeg 2"); Next (VStr "jpeg 3")];
      [Next (VStr "jpeg 1"); Next (VStr "jpeg 2"); Next (VStr "jpeg 3")] ].
Proof.
  intros E f.
  destruct (snapshot_feed_keeps_polling E ["jpeg 1"; "jpeg 2"; "jpeg 3"]
              f constructor eq_refl) as (Hi & _).
  - intros k Hk. simpl in Hk.
    destruct k as [|[|[|k]]]; [reflexivity | reflexivity | reflexivity | lia].
  - exact Hi.
Defined.

(** X13 ([init] acquires nothing, and without a session token the event
    feed ends at its first tick).  [init] only calls [this.refreshTokens],
    which does not exist: its promise is rejected and the instance is left as
    it was.  On an instance without a session token, the first tick of the
    event feed hands the guard error of [getEvents] to every subscriber and
    ends the feed; no request is sent then or at any later time. *)
Theorem event_feed_without_session_token (env : environment) (w : world)
    (f : feed (list Event) (option Event) distinct_state) :
  truthy (_jwtToken (this w)) = false ->
  connected f = true ->
  init w =
    (Return (Rejected (mk_error TypeError "this.refreshTokens is not a function")), w)
  /\ events_step env Tick (f, w) =
       (terminate
          (Err (mk_error Error
             "Access token is null or undefined call: #fetchAccessToken() to retrieve new OAuth token."))
          f, w)
  /\ forall later,
       snd (events_run env later (events_step env Tick (f, w))) = w.
Proof.
  intros Htok Hc.
  assert (Htick : events_step env Tick (f, w) =
            (terminate
               (Err (mk_error Error
                  "Access token is null or undefined call: #fetchAccessToken() to retrieve new OAuth token."))
               f, w)).
  { unfold events_step. simpl. rewrite Hc. unfold events_project, bind.
    rewrite (getEvents_guard env VNull VNull w Htok). reflexivity. }
  split; [reflexivity|]. split; [exact Htick|].
  intros later. rewrite Htick. unfold events_run.
  apply (fun H1 H2 =>
           proj1 (stopped_is_quiet _ _ _ (events_project env) events_operators
                    distinct_fresh later _ _ H1 H2)).
  - apply consistent_terminate.
  - simpl. discriminate.
Qed.

Lemma event_feed_without_session_token_witness :
  let E := Sample.env [Body "two"] in
  let after := events_run E [Subscribe; Tick; Settle; Tick]
                 (events_idle, snd (init constructor)) in
  sent (snd after) = []
  /\ map (fun inbox => map is_terminal inbox) (inboxes (fst after)) = [[true]].
Proof.
  intros E after.
  destruct (event_feed_without_session_token E constructor
              (subscribe distinct_fresh events_idle) eq_refl eq_refl)
    as (Hinit & Htick & Hquiet).
  split.
  - subst after. rewrite Hinit.
    change (events_run E [Subscribe; Tick; Settle; Tick]
              (events_idle, snd (Return (Rejected
                 (mk_error TypeError "this.refreshTokens is not a function")),
                 constructor)))
      with (events_run E [Settle; Tick]
              (events_step E Tick
                 (subscribe distinct_fresh events_idle, constructor))).
    rewrite (Hquiet [Settle; Tick]). reflexivity.
  - reflexivity.
Defined.

(** X14 (the projection picks the newest element).  For every non-empty
    array the projection [events => events[events.length - 1]] yields its last
    element, and it yields [undefined] only for the empty array. *)
Theorem projection_picks_the_last_element (events : list Event) (e : Event) :
  map_project (events ++ [e]) = Some e
  /\ (map_project events = None <-> events = []).
Proof.
  assert (Hlast : forall (l : list Event) x, map_project (l ++ [x]) = Some x).
  { intros l x. unfold map_project, array_get.
    rewrite length_app. simpl length.
    replace (Z.of_nat (length l + 1) - 1)%Z with (Z.of_nat (length l)) by lia.
    destruct (Z.of_nat (length l) <? 0)%Z eqn:Hneg.
    - apply Z.ltb_lt in Hneg. lia.
    - rewrite Nat2Z.id, nth_error_app2 by lia.
      rewrite Nat.sub_diag. reflexivity. }
  split; [apply Hlast|]. split.
  - intros Hnone.
    destruct (rev events) as [| x l] eqn:Hrev.
    + apply (f_equal (@rev Event)) in Hrev. rewrite rev_involutive in Hrev.
      exact Hrev.
    + apply (f_equal (@rev Event)) in Hrev. rewrite rev_involutive in Hrev.
      simpl in Hrev. rewrite Hrev, Hlast in Hnone. discriminate Hnone.
  - intros H. subst events. reflexivity.
Qed.
